(** * Gym membership pricing: a shallow embedding of [gym_system.py]

    The pricing engine of the repository is [calculate_total_cost] together
    with its helper [_get_features_details] and the two catalogs
    [MEMBERSHIP_PLANS] and [ADDITIONAL_FEATURES].

    Python values are modelled as the interpreter has them:
    - [int] is an unbounded integer, here [Z];
    - [float] is an IEEE 754 binary64 number, here [spec_float] with
      precision 53 and exponent bound 1024, with the operations of
      [SpecFloat] (round to nearest, ties to even);
    - [dict] with string keys is a [gmap string _];
    - a raised exception is the [Raise] branch of the [result] type. *)

From Stdlib Require Import ZArith List Lia QArith Qround Qpower Qabs Lqa.
From Stdlib Require Import Floats.SpecFloat.
From Stdlib Require Import Ascii.
From stdpp Require Import gmap strings pretty.

Open Scope Z_scope.

(** ** Exceptions and results *)

Inductive exc_class := ValueError | OverflowError.

Record exception := PyExc { exc_kind : exc_class; exc_msg : string }.

Inductive result (A : Type) :=
| Ok (a : A)
| Raise (e : exception).
Arguments Ok {A} a.
Arguments Raise {A} e.

Definition bind {A B} (r : result A) (k : A -> result B) : result B :=
  match r with
  | Ok a => k a
  | Raise e => Raise e
  end.

Declare Scope py_scope.
Delimit Scope py_scope with py.
Notation "'let*' x ':=' e 'in' k" := (bind e (fun x => k))
  (at level 10, x name, e at level 100, k at level 200) : py_scope.
Notation "'let*' ' p ':=' e 'in' k" :=
  (bind e (fun x => match x with p => k end))
  (at level 10, p pattern, e at level 100, k at level 200) : py_scope.
Open Scope py_scope.

(** ** Python floats (binary64) *)

Module Float.

Definition prec : Z := 53.
Definition emax : Z := 1024.

Definition mul : spec_float -> spec_float -> spec_float := SFmul prec emax.
Definition add : spec_float -> spec_float -> spec_float := SFadd prec emax.
Definition sub : spec_float -> spec_float -> spec_float := SFsub prec emax.

(** The correctly rounded binary64 value of an integer. *)
Definition of_Z (z : Z) : spec_float := binary_normalize prec emax z 0 false.

(** The float literals of the source, as the parser rounds them. *)
Definition lit_0_0 : spec_float := S754_zero false.
Definition lit_0_15 : spec_float := S754_finite false 5404319552844595 (-55).
Definition lit_0_10 : spec_float := S754_finite false 7205759403792794 (-56).
Definition lit_50_0 : spec_float := S754_finite false 7036874417766400 (-47).
Definition lit_20_0 : spec_float := S754_finite false 5629499534213120 (-48).

(** A mantissa that has the exponent the format gives to its magnitude. *)
Definition canonical (m : positive) (e : Z) : Prop :=
  fexp prec emax (Z.pos (digits2_pos m) + e) = e.

(** A zero or a finite float of sign [s], canonical, of exponent at most
    [K]. *)
Definition rounded (s : bool) (K : Z) (f : spec_float) : Prop :=
  match f with
  | S754_zero s' => s' = s
  | S754_finite s' m e => s' = s /\ canonical m e /\ e <= K
  | S754_infinity _ | S754_nan => False
  end.

(** A zero or a finite canonical float of exponent at most [K]: its
    magnitude is below [2 ^ (K + 53)]. *)
Definition within (K : Z) (f : spec_float) : Prop :=
  match f with
  | S754_zero _ => True
  | S754_finite _ m e => canonical m e /\ e <= K
  | S754_infinity _ | S754_nan => False
  end.

(** A float that is not above zero: a zero, a NaN, or a float with the
    minus sign. *)
Definition nonpositive (f : spec_float) : Prop :=
  match f with
  | S754_zero _ | S754_nan => True
  | S754_finite s _ _ | S754_infinity s => s = true
  end.

(** The exact rational value of a float that has one. *)
Definition to_Q (f : spec_float) : option Q :=
  match f with
  | S754_zero _ => Some 0%Q
  | S754_finite s m e =>
      Some (inject_Z (cond_Zopp s (Z.pos m)) * (2 ^ e))%Q
  | S754_infinity _ | S754_nan => None
  end.

End Float.

(** A Python number that is either an [int] or a [float]: the value of
    [max(0, x)] is the int [0] or the float [x]. *)
Inductive number :=
| PyInt (z : Z)
| PyFloat (f : spec_float).

(** [float(z)] as the interpreter converts an [int] operand of a mixed
    operation: correctly rounded, and [OverflowError] when the rounded
    value is not finite. *)
Definition float_of_int (z : Z) : result spec_float :=
  match Float.of_Z z with
  | S754_infinity _ =>
      Raise (PyExc OverflowError "int too large to convert to float")
  | f => Ok f
  end.

(** [z * f] and [z + f] with [z] an int and [f] a float. *)
Definition int_mul_float (z : Z) (f : spec_float) : result spec_float :=
  let* g := float_of_int z in Ok (Float.mul g f).

Definition int_add_float (z : Z) (f : spec_float) : result spec_float :=
  let* g := float_of_int z in Ok (Float.add g f).

(** [f > z] with [f] a float and [z] a small int (below 2^48 in magnitude,
    as 0, 200 and 400 are): the int is converted and the two doubles are
    compared; a NaN compares false. *)
Definition float_gt_int (f : spec_float) (z : Z) : bool :=
  match SFcompare f (Float.of_Z z) with
  | Some Gt => true
  | _ => false
  end.

(** [max(0, x)] for a float [x]: the builtin keeps its first argument
    unless a later one compares greater. *)
Definition py_max0 (x : spec_float) : number :=
  if float_gt_int x 0 then PyFloat x else PyInt 0.

(** [int(v)]: the identity on an int, truncation toward zero on a finite
    float, an exception on an infinity or a NaN. *)
Definition py_int (v : number) : result Z :=
  match v with
  | PyInt z => Ok z
  | PyFloat (S754_zero _) => Ok 0
  | PyFloat (S754_finite s m e) => Ok (cond_Zopp s (Z.shiftl (Z.pos m) e))
  | PyFloat (S754_infinity _) =>
      Raise (PyExc OverflowError "cannot convert float infinity to integer")
  | PyFloat S754_nan =>
      Raise (PyExc ValueError "cannot convert float NaN to integer")
  end.

(** ** The catalogs *)

Record feature := Feature {
  name : string;
  cost : Z;
  is_premium : bool
}.

Definition MEMBERSHIP_PLANS : gmap string Z :=
  {[ "Basic" := 50; "Premium" := 100; "Family" := 150 ]}.

Definition ADDITIONAL_FEATURES : gmap string feature :=
  {[ "1" := Feature "Personal Training" 30 false;
     "2" := Feature "Group Classes" 20 false;
     "3" := Feature "Sauna Access" 40 true;
     "4" := Feature "Nutritional Plan" 60 true ]}.

(** ** [_get_features_details] *)

(** The state of the loop: [(features_cost, selected_names, has_premium)]. *)
Definition features_state : Type := Z * list string * bool.

(** The [for key in selected_features_keys] loop, from a given state. *)
Fixpoint features_loop (keys : list string) (st : features_state)
  : result features_state :=
  match keys with
  | [] => Ok st
  | key :: rest =>
      match ADDITIONAL_FEATURES !! key with
      | Some feat =>
          let '(features_cost, selected_names, has_premium) := st in
          features_loop rest
            (features_cost + cost feat,
             selected_names ++ [name feat],
             if is_premium feat then true else has_premium)
      | None => Raise (PyExc ValueError ("Invalid feature key: " +:+ key))
      end
  end.

Definition _get_features_details (selected_features_keys : list string)
  : result features_state :=
  features_loop selected_features_keys (0, [], false).

(** ** [calculate_total_cost] *)

(** The dict returned next to the cost. *)
Record details := Details {
  base_total : Z;
  surcharge : spec_float;
  group_discount : spec_float;
  special_discount : spec_float;
  features_names : list string
}.

(** The local variables of [calculate_total_cost] when it reaches the
    construction of [details]. *)
Module Locals.
Record t := Make {
  base_cost : Z;
  feat_cost : Z;
  feat_names : list string;
  has_premium : bool;
  total_gross : Z;
  surcharge : spec_float;
  total_after_surcharge : spec_float;
  group_discount : spec_float;
  total_after_group : spec_float;
  special_discount : spec_float;
  final_total : number
}.
End Locals.

(** The body of [calculate_total_cost] up to and including the assignment
    of [final_total]. *)
Definition calculate_total_cost_locals
  (plan_name : string) (selected_features_keys : list string)
  (num_members : Z) : result Locals.t :=
  match MEMBERSHIP_PLANS !! plan_name with
  | None => Raise (PyExc ValueError "Invalid membership plan.")
  | Some base_cost =>
      let* '(feat_cost, feat_names, has_premium) :=
        _get_features_details selected_features_keys in
      let total_gross := (base_cost + feat_cost) * num_members in
      let* surcharge :=
        if has_premium then int_mul_float total_gross Float.lit_0_15
        else Ok Float.lit_0_0 in
      let* total_after_surcharge := int_add_float total_gross surcharge in
      let group_discount :=
        if 2 <=? num_members then Float.mul total_after_surcharge Float.lit_0_10
        else Float.lit_0_0 in
      let total_after_group := Float.sub total_after_surcharge group_discount in
      let special_discount :=
        if float_gt_int total_after_group 400 then Float.lit_50_0
        else if float_gt_int total_after_group 200 then Float.lit_20_0
        else Float.lit_0_0 in
      let final_total :=
        py_max0 (Float.sub total_after_group special_discount) in
      Ok (Locals.Make base_cost feat_cost feat_names has_premium total_gross
            surcharge total_after_surcharge group_discount total_after_group
            special_discount final_total)
  end.

(** The whole function: the body above, then the [details] dict and the
    [return int(final_total), details]. *)
Definition calculate_total_cost
  (plan_name : string) (selected_features_keys : list string)
  (num_members : Z) : result (Z * details) :=
  let* fr :=
    calculate_total_cost_locals plan_name selected_features_keys num_members in
  let details :=
    Details (Locals.total_gross fr) (Locals.surcharge fr)
      (Locals.group_discount fr) (Locals.special_discount fr)
      (Locals.feat_names fr) in
  let* final_cost_int := py_int (Locals.final_total fr) in
  Ok (final_cost_int, details).

(** The cost alone, as the tests read it: [cost, _ = calculate_total_cost(...)]. *)
Definition cost_of (r : result (Z * details)) : result Z :=
  let* '(c, _) := r in Ok c.


(** ** Validity of the inputs *)

Definition valid_plan (plan_name : string) : Prop :=
  is_Some (MEMBERSHIP_PLANS !! plan_name).

Definition valid_key (key : string) : Prop :=
  is_Some (ADDITIONAL_FEATURES !! key).

(** The catalog entry of a key, with a dummy entry for a key that has none. *)
Definition feature_at (key : string) : feature :=
  default (Feature "" 0 false) (ADDITIONAL_FEATURES !! key).

Definition Zsum (l : list Z) : Z := foldr Z.add 0 l.


(** ** The pricing pipeline, as the specification words it

    The definitions of this module follow the seven stages of the
    specification's algorithm, over the resolved features of a selection;
    they are compared with [calculate_total_cost] below. *)

Module Spec.

(** Truncation toward zero of a rational: the fractional part is
    discarded. *)
Definition Qtruncate (q : Q) : Z :=
  if Qle_bool 0 q then Qfloor q else Qceiling q.

(** Stage 7 on a float: its exact value, truncated. *)
Definition truncate (x : spec_float) : result Z :=
  match Float.to_Q x with
  | Some q => Ok (Qtruncate q)
  | None =>
      match x with
      | S754_nan =>
          Raise (PyExc ValueError "cannot convert float NaN to integer")
      | _ =>
          Raise (PyExc OverflowError "cannot convert float infinity to integer")
      end
  end.

(** Strict comparison of a total with an integer threshold. *)
Definition exceeds (x : spec_float) (threshold : Z) : bool :=
  SFltb (Float.of_Z threshold) x.

Section Pipeline.

Variable plan_base : Z.
Variable selected : list feature.
Variable member_count : Z.

(** Stage 1: feature resolution. *)
Definition feature_cost : Z := Zsum (map cost selected).
Definition feature_names : list string := map name selected.
Definition has_premium : bool := existsb is_premium selected.

(** Stage 2. *)
Definition gross : Z := (plan_base + feature_cost) * member_count.

(** The stages that follow compute on the gross total as a float. *)
Variable g : spec_float.

(** Stage 3: premium surcharge. *)
Definition surcharge : spec_float :=
  if has_premium then Float.mul g Float.lit_0_15 else Float.lit_0_0.
Definition after_surcharge : spec_float := Float.add g surcharge.

(** Stage 4: group discount. *)
Definition group_discount : spec_float :=
  if 2 <=? member_count then Float.mul after_surcharge Float.lit_0_10
  else Float.lit_0_0.
Definition after_group : spec_float :=
  Float.sub after_surcharge group_discount.

(** Stage 5: special offer. *)
Definition special_discount : spec_float :=
  if exceeds after_group 400 then Float.lit_50_0
  else if exceeds after_group 200 then Float.lit_20_0
  else Float.lit_0_0.

(** Stage 6: the clamp. *)
Definition final : spec_float :=
  let x := Float.sub after_group special_discount in
  if exceeds x 0 then x else Float.lit_0_0.

Definition breakdown : details :=
  Details gross surcharge group_discount special_discount feature_names.

End Pipeline.

(** The whole pipeline: stages 1 to 7 in this order. *)
Definition pricing (plan_base : Z) (selected : list feature)
  (member_count : Z) : result (Z * details) :=
  let* g := float_of_int (gross plan_base selected member_count) in
  let* final_cost :=
    truncate (final selected member_count g) in
  Ok (final_cost, breakdown plan_base selected member_count g).

End Spec.

(** * The interactive shell

    The functions below the pricing engine read lines from the terminal and
    write text to it.  The terminal is an explicit state: the lines still to
    be read and the chunks of text written so far, one per call of [print]
    or [input].  Text is a sequence of characters of code point below 256;
    [input] raises [EOFError] when no line is left. *)

(** ** Text operations *)

Definition nl : string := String (Ascii.ascii_of_N 10) "".

Module Str.

(** [c.isspace()] for a character of code point below 256. *)
Definition isspace (c : ascii) : bool :=
  let n := Ascii.N_of_ascii c in
  ((9 <=? n) && (n <=? 13) || (28 <=? n) && (n <=? 32)
   || (n =? 133) || (n =? 160))%N.

Fixpoint lstrip_with (p : ascii -> bool) (s : string) : string :=
  match s with
  | EmptyString => EmptyString
  | String c s' => if p c then lstrip_with p s' else s
  end.

Fixpoint rstrip_with (p : ascii -> bool) (s : string) : string :=
  match s with
  | EmptyString => EmptyString
  | String c s' =>
      match rstrip_with p s' with
      | EmptyString => if p c then EmptyString else String c EmptyString
      | r => String c r
      end
  end.

(** [s.strip()]. *)
Definition strip (s : string) : string :=
  rstrip_with isspace (lstrip_with isspace s).

(** [s.lower()] for characters of code point below 256. *)
Definition lower_char (c : ascii) : ascii :=
  let n := Ascii.N_of_ascii c in
  if ((65 <=? n) && (n <=? 90)
      || (192 <=? n) && (n <=? 222) && negb (n =? 215))%N
  then Ascii.ascii_of_N (n + 32) else c.

Fixpoint lower (s : string) : string :=
  match s with
  | EmptyString => EmptyString
  | String c s' => String (lower_char c) (lower s')
  end.

(** [s.split(',')]. *)
Fixpoint split_comma (s : string) : list string :=
  match s with
  | EmptyString => [EmptyString]
  | String c s' =>
      if Ascii.eqb c ","%char then EmptyString :: split_comma s'
      else match split_comma s' with
           | head :: tail => String c head :: tail
           | [] => [String c EmptyString]
           end
  end.

(** [sep.join(l)]. *)
Fixpoint join (sep : string) (l : list string) : string :=
  match l with
  | [] => EmptyString
  | [x] => x
  | x :: rest => x +:+ sep +:+ join sep rest
  end.

End Str.

(** ** [int(s)] for a string

    The literal is an optional sign and decimal digits, single underscores
    allowed between digits, with white space around; anything else is the
    [ValueError] that [get_user_input_members] catches, here [None].
    [max_str_digits] is the interpreter's limit on the number of digits
    ([sys.get_int_max_str_digits()], 0 for none). *)

Definition int_space (c : ascii) : bool :=
  let n := Ascii.N_of_ascii c in
  ((9 <=? n) && (n <=? 13) || (n =? 32) || (n =? 133) || (n =? 160))%N.

Definition digit_value (c : ascii) : option Z :=
  let n := Ascii.N_of_ascii c in
  if ((48 <=? n) && (n <=? 57))%N then Some (Z.of_N n - 48) else None.

(** The digits of a literal, from the value and the number of digits read
    so far; [after_digit] tells whether the last character was a digit. *)
Fixpoint int_digits (s : string) (acc : Z) (count : N) (after_digit : bool)
  : option (Z * N) :=
  match s with
  | EmptyString => if after_digit then Some (acc, count) else None
  | String c s' =>
      match digit_value c with
      | Some d => int_digits s' (10 * acc + d) (count + 1) true
      | None =>
          if Ascii.eqb c "_"%char && after_digit
          then int_digits s' acc count false
          else None
      end
  end.

Definition int_of_str (max_str_digits : N) (s : string) : option Z :=
  let body := Str.rstrip_with int_space (Str.lstrip_with int_space s) in
  let '(negative, digits) :=
    match body with
    | String "-"%char rest => (true, rest)
    | String "+"%char rest => (false, rest)
    | _ => (false, body)
    end in
  match int_digits digits 0 0 false with
  | Some (v, count) =>
      if ((640 <? count) && (0 <? max_str_digits)
          && (max_str_digits <? count))%N
      then None
      else Some (if negative then - v else v)
  | None => None
  end.

(** ** Formatting *)

(** [str(z)] for an int. *)
Definition str_of_int (z : Z) : string := pretty z.

(** The integer nearest to [num / den], ties to the even one. *)
Definition round_half_even_div (num den : Z) : Z :=
  let q := num / den in
  match 2 * (num mod den) ?= den with
  | Lt => q
  | Eq => if Z.even q then q else q + 1
  | Gt => q + 1
  end.

(** [f"{x:.2f}"] for a float: the exact value rounded to two decimals. *)
Definition format_2f (x : spec_float) : string :=
  match x with
  | S754_nan => "nan"
  | S754_infinity s => if s then "-inf" else "inf"
  | S754_zero s => if s then "-0.00" else "0.00"
  | S754_finite s m e =>
      let hundredths :=
        if 0 <=? e then Z.pos m * 2 ^ e * 100
        else round_half_even_div (Z.pos m * 100) (2 ^ (- e)) in
      (if s then "-" else "") +:+ pretty (hundredths / 100) +:+ "." +:+
      (if hundredths mod 100 <? 10 then "0" else "") +:+
      pretty (hundredths mod 100)
  end.

(** [f"{z:.2f}"] for an int: the int is converted to a float first. *)
Definition format_int_2f (z : Z) : result string :=
  let* g := float_of_int z in Ok (format_2f g).

(** ** The terminal *)

Record world := World {
  stdin : list string;
  stdout : list string
}.

Inductive outcome (A : Type) :=
| Returned (a : A)
| Raised (e : exception)
| RaisedEOFError.
Arguments Returned {A} a.
Arguments Raised {A} e.
Arguments RaisedEOFError {A}.

Definition io (A : Type) : Type := world -> outcome A * world.

Definition io_ret {A} (a : A) : io A := fun w => (Returned a, w).

Definition io_bind {A B} (m : io A) (k : A -> io B) : io B :=
  fun w =>
    match m w with
    | (Returned a, w') => k a w'
    | (Raised e, w') => (Raised e, w')
    | (RaisedEOFError, w') => (RaisedEOFError, w')
    end.

Declare Scope io_scope.
Delimit Scope io_scope with io.
Notation "'let*' x ':=' e 'in' k" := (io_bind e (fun x => k))
  (at level 10, x name, e at level 100, k at level 200) : io_scope.
Notation "e1 ';;' e2" := (io_bind e1 (fun _ => e2))
  (at level 100, e2 at level 200, right associativity) : io_scope.

(** [print(s)]. *)
Definition print (s : string) : io unit :=
  fun w => (Returned tt, World (stdin w) (stdout w ++ [s +:+ nl])).

(** [input(prompt)]: the prompt is written, then a line is read. *)
Definition input (prompt : string) : io string :=
  fun w =>
    let out := stdout w ++ [prompt] in
    match stdin w with
    | [] => (RaisedEOFError, World [] out)
    | line :: rest => (Returned line, World rest out)
    end.

(** A [for] loop whose body only writes. *)
Fixpoint for_each {A} (l : list A) (body : A -> io unit) : io unit :=
  match l with
  | [] => io_ret tt
  | x :: rest => io_bind (body x) (fun _ => for_each rest body)
  end.

(** ** The shell functions *)

(** The catalogs in the order of their dict literals, as [.items()]
    iterates them. *)
Definition MEMBERSHIP_PLANS_items : list (string * Z) :=
  [("Basic", 50); ("Premium", 100); ("Family", 150)].

Definition ADDITIONAL_FEATURES_items : list (string * feature) :=
  [("1", Feature "Personal Training" 30 false);
   ("2", Feature "Group Classes" 20 false);
   ("3", Feature "Sauna Access" 40 true);
   ("4", Feature "Nutritional Plan" 60 true)].

Definition display_menu : io unit :=
  (print (nl +:+ "--- GYM MEMBERSHIP PLANS ---") ;;
   for_each MEMBERSHIP_PLANS_items
     (fun '(plan, cost) =>
        print ("- " +:+ plan +:+ ": $" +:+ str_of_int cost)))%io.

Definition display_features : io unit :=
  (print (nl +:+ "--- ADDITIONAL FEATURES ---") ;;
   for_each ADDITIONAL_FEATURES_items
     (fun '(key, data) =>
        let type_str := if is_premium data then "[PREMIUM]" else "" in
        print (key +:+ ". " +:+ name data +:+ " ($" +:+
               str_of_int (cost data) +:+ ") " +:+ type_str)))%io.

Definition get_user_input_plan : io (option string) :=
  (display_menu ;;
   let* line := input "Enter the name of the plan you want (e.g., Basic): " in
   let plan := Str.strip line in
   match MEMBERSHIP_PLANS !! plan with
   | None => print "Error: Plan not available." ;; io_ret None
   | Some _ => io_ret (Some plan)
   end)%io.

Definition get_user_input_members (max_str_digits : N) : io (option Z) :=
  (let* line := input "How many members are signing up? " in
   match int_of_str max_str_digits line with
   | Some num =>
       if num <? 1 then
         print "Error: At least one member is required." ;; io_ret None
       else
         (if 2 <=? num
          then print ">> NOTE: Group discount of 10% will be applied!"
          else io_ret tt) ;;
         io_ret (Some num)
   | None => print "Error: Invalid number." ;; io_ret None
   end)%io.

(** The validation loop of [get_user_input_features]: the first key that
    is not in the catalog, if there is one. *)
Fixpoint first_unavailable (keys : list string) : option string :=
  match keys with
  | [] => None
  | key :: rest =>
      match ADDITIONAL_FEATURES !! key with
      | None => Some key
      | Some _ => first_unavailable rest
      end
  end.

Definition get_user_input_features : io (option (list string)) :=
  (display_features ;;
   print "Enter feature numbers separated by comma (e.g., 1,3) or leave empty." ;;
   let* line := input "Selection: " in
   let f_input := Str.strip line in
   let selected_keys :=
     match f_input with
     | EmptyString => []
     | _ => map Str.strip (Str.split_comma f_input)
     end in
   match first_unavailable selected_keys with
   | Some key =>
       print ("Error: Feature '" +:+ key +:+ "' is not available.") ;;
       io_ret None
   | None => io_ret (Some selected_keys)
   end)%io.

(** A step of [confirm_purchase] that may raise: the formatting of the
    gross total. *)
Definition io_lift {A} (r : result A) : io A :=
  fun w =>
    match r with
    | Ok a => (Returned a, w)
    | Raise e => (Raised e, w)
    end.

Definition confirm_purchase (plan : string) (num_members : Z) (cost : Z)
  (details : details) : io bool :=
  (print (nl +:+ "--- CONFIRMATION ---") ;;
   let feat_str :=
     match features_names details with
     | [] => "None"
     | names => Str.join ", " names
     end in
   print ("Plan: " +:+ plan +:+ " (x" +:+ str_of_int num_members +:+
          " members)") ;;
   print ("Features: " +:+ feat_str) ;;
   let* gross_str := io_lift (format_int_2f (base_total details)) in
   print ("Gross Total: $" +:+ gross_str) ;;
   (if float_gt_int (surcharge details) 0
    then print ("Premium Surcharge (+15%): +$" +:+
                format_2f (surcharge details))
    else io_ret tt) ;;
   (if float_gt_int (group_discount details) 0
    then print ("Group Discount (-10%): -$" +:+
                format_2f (group_discount details))
    else io_ret tt) ;;
   (if float_gt_int (special_discount details) 0
    then print ("Special Offer Discount: -$" +:+
                format_2f (special_discount details))
    else io_ret tt) ;;
   print (nl +:+ "FINAL TOTAL COST: $" +:+ str_of_int cost) ;;
   let* line :=
     input (nl +:+ "Do you want to confirm this membership? (yes/no): ") in
   let confirm := Str.lower line in
   if bool_decide (confirm = "yes") || bool_decide (confirm = "y") then
     print ("Membership Confirmed! Total to pay: $" +:+ str_of_int cost) ;;
     io_ret true
   else
     print "Membership Canceled." ;; io_ret false)%io.

(** [run_gym_system]: [not plan_choice] holds for [None] and for the empty
    string, [not num_members] for [None] and for 0; only a [ValueError] of
    the calculation is caught. *)
Definition run_gym_system (max_str_digits : N) : io Z :=
  (print "Welcome to the Gym Membership Management System" ;;
   let* plan_choice := get_user_input_plan in
   match plan_choice with
   | None | Some EmptyString => io_ret (-1)
   | Some plan_choice =>
       let* num_members := get_user_input_members max_str_digits in
       match num_members with
       | None | Some 0 => io_ret (-1)
       | Some num_members =>
           let* selected_keys := get_user_input_features in
           match selected_keys with
           | None => io_ret (-1)
           | Some selected_keys =>
               match calculate_total_cost plan_choice selected_keys
                       num_members with
               | Raise (PyExc ValueError msg) =>
                   print ("Calculation Error: " +:+ msg) ;; io_ret (-1)
               | Raise err => io_lift (Raise err)
               | Ok (total_cost, details) =>
                   let* confirmed :=
                     confirm_purchase plan_choice num_members total_cost
                       details in
                   if confirmed then io_ret total_cost else io_ret (-1)
               end
           end
       end
   end)%io.

(** ** Predicates on text, for the statements below *)

(** Every character of the string satisfies [p]. *)
Fixpoint all_chars (p : ascii -> bool) (s : string) : bool :=
  match s with
  | EmptyString => true
  | String c s' => p c && all_chars p s'
  end.

Definition is_digit (c : ascii) : bool :=
  match digit_value c with Some _ => true | None => false end.

Definition not_comma (c : ascii) : bool := negb (Ascii.eqb c ","%char).

(** The answers that [confirm_purchase] takes for a yes. *)
Definition yes_answers : list string :=
  ["yes"; "yeS"; "yEs"; "yES"; "Yes"; "YeS"; "YEs"; "YES"; "y"; "Y"].

(** The line that announces the group discount. *)
Definition group_note : string :=
  ">> NOTE: Group discount of 10% will be applied!" +:+ nl.

(** The keys that [get_user_input_features] makes of a line. *)
Definition selection (line : string) : list string :=
  match Str.strip line with
  | EmptyString => []
  | _ => map Str.strip (Str.split_comma (Str.strip line))
  end.

(** ** Floats above zero, for the statements on the engine *)

(** A finite float with the plus sign, canonical, with an exponent between
    [L] and [K]: for [L] above the least exponent its mantissa has 53
    digits, so that its value is at least [2 ^ (L + 52)]. *)
Definition positive_between (L K : Z) (f : spec_float) : Prop :=
  match f with
  | S754_finite false m e => Float.canonical m e /\ L <= e <= K
  | _ => False
  end.
(** * Properties *)

(** ** The catalogs *)

Lemma valid_plan_cases plan_name :
  valid_plan plan_name <->
  plan_name = "Basic" \/ plan_name = "Premium" \/ plan_name = "Family".
Proof.
  unfold valid_plan, MEMBERSHIP_PLANS. split.
  - intros [b Hb].
    destruct (decide (plan_name = "Basic")) as [|n1]; [tauto|].
    destruct (decide (plan_name = "Premium")) as [|n2]; [tauto|].
    destruct (decide (plan_name = "Family")) as [|n3]; [tauto|].
    by simplify_map_eq.
  - intros [-> | [-> | ->]]; by eexists.
Qed.

Lemma valid_key_cases key :
  valid_key key <-> key = "1" \/ key = "2" \/ key = "3" \/ key = "4".
Proof.
  unfold valid_key, ADDITIONAL_FEATURES. split.
  - intros [b Hb].
    destruct (decide (key = "1")) as [|n1]; [tauto|].
    destruct (decide (key = "2")) as [|n2]; [tauto|].
    destruct (decide (key = "3")) as [|n3]; [tauto|].
    destruct (decide (key = "4")) as [|n4]; [tauto|].
    by simplify_map_eq.
  - intros [->|[-> | [-> | ->]]]; by eexists.
Qed.

Lemma plan_base_positive plan_name base :
  MEMBERSHIP_PLANS !! plan_name = Some base -> 50 <= base <= 150.
Proof.
  intros H. assert (Hv : valid_plan plan_name) by (by eexists).
  apply valid_plan_cases in Hv as [-> | [-> | ->]];
    vm_compute in H; injection H as <-; lia.
Qed.

Lemma feature_cost_nonneg key : 0 <= cost (feature_at key).
Proof.
  unfold feature_at. destruct (ADDITIONAL_FEATURES !! key) as [f|] eqn:E.
  - assert (Hv : valid_key key) by (by eexists).
    apply valid_key_cases in Hv as [->|[-> | [-> | ->]]];
      vm_compute in E; injection E as <-; simpl; lia.
  - simpl. lia.
Qed.

Lemma Zsum_costs_nonneg keys : 0 <= Zsum (map (fun k => cost (feature_at k)) keys).
Proof.
  induction keys as [|k keys IH]; simpl; [lia|].
  pose proof (feature_cost_nonneg k). lia.
Qed.

(** ** The float literals

    Each literal is the double nearest to the decimal written in the
    source: it is within half a unit in the last place of it, and it is
    what a correctly rounded division of the two integers gives. *)

Lemma lit_0_15_nearest :
  (Qabs (inject_Z 5404319552844595 * 2 ^ (-55) - (15 # 100)) <= 2 ^ (-56))%Q /\
  SFdiv Float.prec Float.emax (Float.of_Z 15) (Float.of_Z 100) = Float.lit_0_15.
Proof. split; [vm_compute; discriminate|vm_compute; reflexivity]. Qed.

Lemma lit_0_10_nearest :
  (Qabs (inject_Z 7205759403792794 * 2 ^ (-56) - (10 # 100)) <= 2 ^ (-57))%Q /\
  SFdiv Float.prec Float.emax (Float.of_Z 10) (Float.of_Z 100) = Float.lit_0_10.
Proof. split; [vm_compute; discriminate|vm_compute; reflexivity]. Qed.

Lemma lit_50_0_exact : Float.of_Z 50 = Float.lit_50_0.
Proof. reflexivity. Qed.

Lemma lit_20_0_exact : Float.of_Z 20 = Float.lit_20_0.
Proof. reflexivity. Qed.

(** ** The feature loop *)

Lemma features_loop_valid keys :
  Forall valid_key keys ->
  forall features_cost selected_names has_premium,
    features_loop keys (features_cost, selected_names, has_premium) =
    Ok (features_cost + Zsum (map (fun k => cost (feature_at k)) keys),
        selected_names ++ map (fun k => name (feature_at k)) keys,
        has_premium || existsb (fun k => is_premium (feature_at k)) keys).
Proof.
  induction 1 as [|key keys [feat Hfeat] _ IH]; intros c ns hp; simpl.
  - by rewrite Z.add_0_r, app_nil_r, orb_false_r.
  - unfold feature_at at 1 3 5. rewrite Hfeat. simpl. rewrite IH.
    f_equal. f_equal; [f_equal; [lia|by rewrite <- app_assoc]|].
    by destruct (is_premium feat), hp.
Qed.

Lemma features_loop_first_invalid pre key post st :
  Forall valid_key pre ->
  ADDITIONAL_FEATURES !! key = None ->
  features_loop (pre ++ key :: post) st =
  Raise (PyExc ValueError ("Invalid feature key: " +:+ key)).
Proof.
  intros Hpre Hkey. revert st.
  induction Hpre as [|k pre [feat Hfeat] _ IH]; intros st; simpl.
  - by rewrite Hkey.
  - rewrite Hfeat. destruct st as [[c ns] hp]. apply IH.
Qed.

(** A list with an unknown key splits at its first unknown key. *)
Lemma first_invalid_split keys :
  Exists (fun k => ADDITIONAL_FEATURES !! k = None) keys ->
  exists pre key post,
    keys = pre ++ key :: post /\
    Forall valid_key pre /\
    ADDITIONAL_FEATURES !! key = None.
Proof.
  induction keys as [|k keys IH]; intros HE; [by inversion HE|].
  destruct (ADDITIONAL_FEATURES !! k) as [f|] eqn:Hk.
  - inversion HE as [? ? Hk'|? ? HE']; subst; [congruence|].
    destruct (IH HE') as (pre & key & post & -> & Hpre & Hkey).
    exists (k :: pre), key, post. split; [done|]. split; [|done].
    constructor; [by eexists|done].
  - exists [], k, keys. by repeat split.
Qed.

Lemma get_features_details_valid keys :
  Forall valid_key keys ->
  _get_features_details keys =
  Ok (Zsum (map (fun k => cost (feature_at k)) keys),
      map (fun k => name (feature_at k)) keys,
      existsb (fun k => is_premium (feature_at k)) keys).
Proof.
  intros H. unfold _get_features_details. by rewrite features_loop_valid.
Qed.

(** ** Comparison of floats *)

Lemma SFcompare_swap x y :
  SFcompare y x = option_map CompOpp (SFcompare x y).
Proof.
  destruct x as [sx|sx| |sx mx ex], y as [sy|sy| |sy my ey]; simpl;
    try done;
    try (by destruct sx); try (by destruct sy); try (by destruct sx, sy).
  rewrite (Z.compare_antisym ey ex), !Pos.compare_cont_spec.
  rewrite (Pos.compare_antisym my mx).
  destruct sx, sy; simpl; try done;
    destruct (ey ?= ex); simpl; try done;
    destruct (my ?= mx)%positive; done.
Qed.

Lemma exceeds_float_gt_int x z : Spec.exceeds x z = float_gt_int x z.
Proof.
  unfold Spec.exceeds, float_gt_int, SFltb.
  rewrite (SFcompare_swap x (Float.of_Z z)).
  by destruct (SFcompare x (Float.of_Z z)) as [[]|].
Qed.

(** A float that compares greater than an int is not a NaN and carries no
    minus sign. *)
Lemma float_gt_int_0_inv x :
  float_gt_int x 0 = true ->
  x = S754_infinity false \/ exists m e, x = S754_finite false m e.
Proof.
  unfold float_gt_int. change (Float.of_Z 0) with (S754_zero false).
  destruct x as [s|[]| |[] m e]; simpl; try discriminate; eauto.
Qed.

(** ** Truncation *)

Lemma Qfloor_shiftl n e : Qfloor (inject_Z n * 2 ^ e) = Z.shiftl n e.
Proof.
  destruct (Z.le_gt_cases 0 e) as [He|He].
  - rewrite Z.shiftl_mul_pow2 by done.
    rewrite <- (Qfloor_Z (n * 2 ^ e)). apply Qfloor_comp.
    rewrite inject_Z_mult, Zpower_Qpower by done. reflexivity.
  - rewrite Z.shiftl_div_pow2 by lia.
    rewrite Zdiv_Qdiv. apply Qfloor_comp.
    rewrite Zpower_Qpower by lia.
    replace e with (- - e) at 1 by lia.
    rewrite Qpower_opp. reflexivity.
Qed.

Lemma Qpow2_pos e : (0 < 2 ^ e)%Q.
Proof. by apply Qpower_0_lt. Qed.

Lemma Qtruncate_shiftl s m e :
  Spec.Qtruncate (inject_Z (cond_Zopp s (Z.pos m)) * 2 ^ e) =
  cond_Zopp s (Z.shiftl (Z.pos m) e).
Proof.
  unfold Spec.Qtruncate. pose proof (Qpow2_pos e) as Hp.
  destruct s; unfold cond_Zopp.
  - destruct (Qle_bool 0 (inject_Z (- Z.pos m) * 2 ^ e)) eqn:Hle.
    + apply Qle_bool_iff in Hle. exfalso.
      apply (Qlt_irrefl 0). eapply Qle_lt_trans; [apply Hle|].
      rewrite <- (Qmult_0_l (2 ^ e)). by apply Qmult_lt_compat_r.
    + unfold Qceiling. f_equal. rewrite <- Qfloor_shiftl.
      apply Qfloor_comp. rewrite inject_Z_opp. ring.
  - rewrite Qfloor_shiftl.
    destruct (Qle_bool 0 (inject_Z (Z.pos m) * 2 ^ e)) eqn:Hle; [done|].
    exfalso. apply Bool.not_true_iff_false in Hle. apply Hle.
    apply Qle_bool_iff. apply Qmult_le_0_compat; [done|by apply Qlt_le_weak].
Qed.

Lemma py_int_truncate x : py_int (PyFloat x) = Spec.truncate x.
Proof.
  destruct x as [s|s| |s m e]; try done.
  unfold Spec.truncate, Float.to_Q, py_int. by rewrite Qtruncate_shiftl.
Qed.

Lemma py_int_max0 x :
  py_int (py_max0 x) =
  Spec.truncate (if Spec.exceeds x 0 then x else Float.lit_0_0).
Proof.
  rewrite exceeds_float_gt_int. unfold py_max0.
  destruct (float_gt_int x 0); [apply py_int_truncate|done].
Qed.

(** ** The body of [calculate_total_cost] on a valid selection *)

Lemma resolved_cost keys :
  Zsum (map (fun k => cost (feature_at k)) keys) =
  Spec.feature_cost (map feature_at keys).
Proof. unfold Spec.feature_cost. by rewrite map_map. Qed.

Lemma resolved_names keys :
  map (fun k => name (feature_at k)) keys =
  Spec.feature_names (map feature_at keys).
Proof. unfold Spec.feature_names. by rewrite map_map. Qed.

Lemma resolved_premium keys :
  existsb (fun k => is_premium (feature_at k)) keys =
  Spec.has_premium (map feature_at keys).
Proof.
  unfold Spec.has_premium. induction keys as [|k keys IH]; simpl; congruence.
Qed.

Lemma calculate_total_cost_locals_valid plan_name base keys num_members :
  MEMBERSHIP_PLANS !! plan_name = Some base ->
  Forall valid_key keys ->
  let selected := map feature_at keys in
  calculate_total_cost_locals plan_name keys num_members =
  let* g := float_of_int (Spec.gross base selected num_members) in
  Ok (Locals.Make base
        (Spec.feature_cost selected)
        (Spec.feature_names selected)
        (Spec.has_premium selected)
        (Spec.gross base selected num_members)
        (Spec.surcharge selected g)
        (Spec.after_surcharge selected g)
        (Spec.group_discount selected num_members g)
        (Spec.after_group selected num_members g)
        (Spec.special_discount selected num_members g)
        (py_max0 (Float.sub (Spec.after_group selected num_members g)
                    (Spec.special_discount selected num_members g)))).
Proof.
  intros Hplan Hkeys selected. unfold calculate_total_cost_locals.
  rewrite Hplan, (get_features_details_valid _ Hkeys).
  rewrite resolved_cost, resolved_names, resolved_premium.
  fold selected. cbn [bind].
  unfold int_mul_float, int_add_float, Spec.gross.
  destruct (float_of_int ((base + Spec.feature_cost selected) * num_members))
    as [g|err]; [|by destruct (Spec.has_premium selected)].
  unfold Spec.special_discount, Spec.after_group, Spec.group_discount,
    Spec.after_surcharge, Spec.surcharge.
  destruct (Spec.has_premium selected); cbn [bind];
    rewrite !exceeds_float_gt_int; reflexivity.
Qed.

Lemma calculate_total_cost_pipeline plan_name base keys num_members :
  MEMBERSHIP_PLANS !! plan_name = Some base ->
  Forall valid_key keys ->
  calculate_total_cost plan_name keys num_members =
  Spec.pricing base (map feature_at keys) num_members.
Proof.
  intros Hplan Hkeys. unfold calculate_total_cost, Spec.pricing.
  rewrite (calculate_total_cost_locals_valid _ _ _ _ Hplan Hkeys).
  destruct (float_of_int (Spec.gross base (map feature_at keys) num_members))
    as [g|err]; [|reflexivity].
  cbn [bind Locals.final_total Locals.total_gross Locals.surcharge
         Locals.group_discount Locals.special_discount Locals.feat_names].
  rewrite py_int_max0. reflexivity.
Qed.

(** ** Repeated keys *)

Lemma feature_name_injective k k' :
  valid_key k -> valid_key k' ->
  name (feature_at k) = name (feature_at k') -> k = k'.
Proof.
  intros Hk Hk'.
  apply valid_key_cases in Hk as [-> | [-> | [-> | ->]]];
    apply valid_key_cases in Hk' as [-> | [-> | [-> | ->]]];
    vm_compute; intros H; try reflexivity; discriminate H.
Qed.

Lemma count_occ_names keys k :
  Forall valid_key keys -> valid_key k ->
  count_occ String.string_dec (map (fun k' => name (feature_at k')) keys)
    (name (feature_at k)) =
  count_occ String.string_dec keys k.
Proof.
  intros Hkeys Hk. induction Hkeys as [|k' keys Hk' _ IH]; [done|].
  cbn [map]. destruct (String.string_dec k' k) as [->|Hne].
  - by rewrite !count_occ_cons_eq, IH.
  - rewrite !count_occ_cons_neq, IH; [done|done|].
    intros Heq. apply Hne. by apply feature_name_injective.
Qed.

Lemma Zsum_costs_by_key keys :
  Forall valid_key keys ->
  Zsum (map (fun k => cost (feature_at k)) keys) =
    Z.of_nat (count_occ String.string_dec keys "1") * 30
  + Z.of_nat (count_occ String.string_dec keys "2") * 20
  + Z.of_nat (count_occ String.string_dec keys "3") * 40
  + Z.of_nat (count_occ String.string_dec keys "4") * 60.
Proof.
  induction 1 as [|k keys Hk _ IH]; [done|].
  cbn [map Zsum foldr]. fold (Zsum (map (fun k => cost (feature_at k)) keys)).
  rewrite IH.
  apply valid_key_cases in Hk as [-> | [-> | [-> | ->]]];
    change (cost (feature_at "1")) with 30;
    change (cost (feature_at "2")) with 20;
    change (cost (feature_at "3")) with 40;
    change (cost (feature_at "4")) with 60;
    cbn [count_occ];
    repeat match goal with
           | |- context [String.string_dec ?a ?b] =>
               destruct (String.string_dec a b); [try discriminate|try done]
           end;
    lia.
Qed.

Lemma calculate_total_cost_Ok_plan plan_name keys num_members r :
  calculate_total_cost plan_name keys num_members = Ok r ->
  exists base, MEMBERSHIP_PLANS !! plan_name = Some base.
Proof.
  unfold calculate_total_cost, calculate_total_cost_locals.
  destruct (MEMBERSHIP_PLANS !! plan_name) as [base|]; [eauto|discriminate].
Qed.

(** ** Relations between the local variables *)

Lemma calculate_total_cost_locals_inv plan_name keys num_members fr :
  calculate_total_cost_locals plan_name keys num_members = Ok fr ->
  Locals.group_discount fr =
    (if 2 <=? num_members
     then Float.mul (Locals.total_after_surcharge fr) Float.lit_0_10
     else Float.lit_0_0) /\
  Locals.total_after_group fr =
    Float.sub (Locals.total_after_surcharge fr) (Locals.group_discount fr) /\
  Locals.special_discount fr =
    (if float_gt_int (Locals.total_after_group fr) 400 then Float.lit_50_0
     else if float_gt_int (Locals.total_after_group fr) 200 then Float.lit_20_0
     else Float.lit_0_0) /\
  Locals.final_total fr =
    py_max0 (Float.sub (Locals.total_after_group fr)
               (Locals.special_discount fr)).
Proof.
  unfold calculate_total_cost_locals.
  destruct (MEMBERSHIP_PLANS !! plan_name) as [base|]; [|discriminate].
  destruct (_get_features_details keys) as [[[fc ns] hp]|]; [|discriminate].
  cbn [bind].
  destruct (if hp then _ else _) as [s|]; [|discriminate]. cbn [bind].
  destruct (int_add_float _ s) as [tas|]; [|discriminate]. cbn [bind].
  intros [= <-]. by cbn.
Qed.

Lemma calculate_total_cost_of_locals plan_name keys num_members fr :
  calculate_total_cost_locals plan_name keys num_members = Ok fr ->
  calculate_total_cost plan_name keys num_members =
  let* c := py_int (Locals.final_total fr) in
  Ok (c, Details (Locals.total_gross fr) (Locals.surcharge fr)
           (Locals.group_discount fr) (Locals.special_discount fr)
           (Locals.feat_names fr)).
Proof. intros H. unfold calculate_total_cost. by rewrite H. Qed.

(** ** The floor of a rational *)

Lemma Qfloor_unique (x : Q) (z : Z) :
  (inject_Z z <= x)%Q -> (x < inject_Z (z + 1))%Q -> Qfloor x = z.
Proof.
  intros Hle Hlt. apply Z.le_antisymm.
  - apply Z.lt_succ_r. rewrite <- Z.add_1_r. rewrite Zlt_Qlt.
    eapply Qle_lt_trans; [apply Qfloor_le|done].
  - rewrite <- (Qfloor_Z z). by apply Qfloor_resp_le.
Qed.

Lemma Qfloor_half_up (q : Q) :
  (inject_Z (Qfloor q) + (1 # 2) <= q)%Q ->
  Qfloor (q + (1 # 2)) = Qfloor q + 1.
Proof.
  intros H. pose proof (Qlt_floor q) as Hlt.
  apply Qfloor_unique; rewrite !inject_Z_plus in *;
    change (inject_Z 1) with 1%Q in *; lra.
Qed.

(** ** Binary digits *)

Lemma digits2_pos_size p : digits2_pos p = Pos.size p.
Proof. induction p as [p IH|p IH|]; simpl; congruence. Qed.

Lemma digits2_log2 p : Z.pos (digits2_pos p) = Z.log2 (Z.pos p) + 1.
Proof.
  rewrite digits2_pos_size. destruct p as [p|p|]; simpl; try lia.
Qed.

Lemma digits2_bounds p :
  2 ^ (Z.pos (digits2_pos p) - 1) <= Z.pos p < 2 ^ Z.pos (digits2_pos p).
Proof.
  rewrite digits2_log2. replace (Z.log2 (Z.pos p) + 1 - 1) with (Z.log2 (Z.pos p)) by lia.
  rewrite Z.add_1_r. apply Z.log2_spec. lia.
Qed.

Lemma digits2_le p k : Z.pos p < 2 ^ k -> Z.pos (digits2_pos p) <= k.
Proof.
  intros H. destruct (digits2_bounds p) as [Hlo _].
  destruct (Z.le_gt_cases (Z.pos (digits2_pos p)) k) as [|Hgt]; [done|].
  exfalso.
  assert (2 ^ k <= 2 ^ (Z.pos (digits2_pos p) - 1)); [|lia].
  destruct (Z.le_gt_cases 0 k).
  - apply Z.pow_le_mono_r; lia.
  - rewrite (Z.pow_neg_r 2 k) in H by lia. lia.
Qed.

Lemma digits2_ge p k : 2 ^ k <= Z.pos p -> k + 1 <= Z.pos (digits2_pos p).
Proof.
  intros H. destruct (digits2_bounds p) as [_ Hhi].
  destruct (Z.le_gt_cases (k + 1) (Z.pos (digits2_pos p))) as [|Hgt]; [done|].
  exfalso.
  assert (2 ^ Z.pos (digits2_pos p) <= 2 ^ k); [|lia].
  apply Z.pow_le_mono_r; lia.
Qed.

(** ** Right shifts of a mantissa *)

Lemma shr_m_shr_1 r : 0 <= shr_m r -> shr_m (shr_1 r) = shr_m r / 2.
Proof.
  intros H. rewrite <- Z.div2_div.
  destruct r as [[|[p|p|]|p] b1 b2]; cbn [shr_m] in H; try reflexivity; lia.
Qed.

Lemma shr_m_iter_shr_1 n r :
  0 <= shr_m r -> shr_m (SpecFloat.iter_pos shr_1 n r) = shr_m r / 2 ^ Z.pos n.
Proof.
  revert r. induction n as [n IH|n IH|]; intros r Hr; cbn [SpecFloat.iter_pos].
  - assert (H1 : 0 <= shr_m (shr_1 r))
      by (rewrite shr_m_shr_1 by done; by apply Z.div_pos).
    assert (H2 : 0 <= shr_m (SpecFloat.iter_pos shr_1 n (shr_1 r)))
      by (rewrite IH by done; apply Z.div_pos; lia).
    rewrite IH, IH, shr_m_shr_1 by done.
    rewrite !Z.div_div by lia. f_equal.
    replace (Z.pos n~1) with (1 + Z.pos n + Z.pos n) by lia.
    rewrite !Z.pow_add_r, Z.pow_1_r by lia. ring.
  - assert (H2 : 0 <= shr_m (SpecFloat.iter_pos shr_1 n r))
      by (rewrite IH by done; apply Z.div_pos; lia).
    rewrite IH, IH by done. rewrite Z.div_div by lia. f_equal.
    replace (Z.pos n~0) with (Z.pos n + Z.pos n) by lia.
    rewrite Z.pow_add_r by lia. ring.
  - rewrite shr_m_shr_1 by done. by rewrite Z.pow_1_r.
Qed.

Lemma shr_m_record_of_loc m l : shr_m (shr_record_of_loc m l) = m.
Proof. by destruct l as [|[]]. Qed.

(** A right shift to the exponent the format asks for. *)
Lemma shr_fexp_spec m e l :
  0 <= m ->
  let n := Z.max 0 (fexp Float.prec Float.emax (Zdigits2 m + e) - e) in
  exists r,
    shr_fexp Float.prec Float.emax m e l = (r, e + n) /\
    shr_m r = m / 2 ^ n.
Proof.
  intros Hm n. unfold shr_fexp, shr. subst n.
  destruct (fexp Float.prec Float.emax (Zdigits2 m + e) - e) as [|p|p] eqn:E.
  - eexists. split; [by rewrite Z.add_0_r|].
    by rewrite shr_m_record_of_loc, Z.div_1_r.
  - eexists. split; [by rewrite Z.max_r by lia|].
    rewrite shr_m_iter_shr_1, shr_m_record_of_loc, Z.max_r by
      (rewrite ?shr_m_record_of_loc; lia). done.
  - eexists. split; [by rewrite Z.add_0_r|].
    by rewrite shr_m_record_of_loc, Z.div_1_r.
Qed.

Lemma round_nearest_even_bounds m l :
  m <= round_nearest_even m l <= m + 1.
Proof.
  destruct l as [|[]]; cbn [round_nearest_even]; try lia.
  destruct (Z.even m); lia.
Qed.

(** ** Rounding stays in range *)

Lemma fexp_eq x : fexp Float.prec Float.emax x = Z.max (x - 53) (-1074).
Proof. reflexivity. Qed.

Lemma pow2_split a b : 0 <= a -> 0 <= b -> 2 ^ (a + b) = 2 ^ a * 2 ^ b.
Proof. intros. by apply Z.pow_add_r. Qed.

Lemma binary_round_aux_rounded s m e l K :
  e <= fexp Float.prec Float.emax (Z.pos (digits2_pos m) + e) ->
  fexp Float.prec Float.emax (Z.pos (digits2_pos m) + e) <= K ->
  K < 971 ->
  Float.rounded s (K + 1)
    (binary_round_aux Float.prec Float.emax s (Z.pos m) e l).
Proof.
  intros Hin HK HK'. unfold binary_round_aux.
  destruct (shr_fexp_spec (Z.pos m) e l) as (r1 & E1 & Hm1); [lia|].
  rewrite E1. cbv beta iota.
  cbn [Zdigits2] in *. rewrite fexp_eq in *.
  set (d := Z.pos (digits2_pos m)) in *.
  destruct (digits2_bounds m) as [Hdlo Hdhi]. fold d in Hdlo, Hdhi.
  assert (Hd : 1 <= d) by (unfold d; lia).
  set (n1 := Z.max 0 (Z.max (d + e - 53) (-1074) - e)) in *.
  set (e1 := e + n1) in *.
  assert (Hn1 : 0 <= n1) by lia.
  assert (He1 : e1 = Z.max (d + e - 53) (-1074)) by lia.
  assert (Hp1 : 0 < 2 ^ n1) by (apply Z.pow_pos_nonneg; lia).
  assert (Hm1lo : 0 <= shr_m r1) by (rewrite Hm1; apply Z.div_pos; lia).
  assert (Hm1hi : shr_m r1 < 2 ^ 53).
  { rewrite Hm1. apply Z.div_lt_upper_bound; [done|].
    rewrite <- pow2_split by lia.
    eapply Z.lt_le_trans; [apply Hdhi|]. apply Z.pow_le_mono_r; lia. }
  assert (Hm1norm : -1074 < e1 -> 2 ^ 52 <= shr_m r1).
  { intros Hgt. rewrite Hm1. apply Z.div_le_lower_bound; [done|].
    rewrite <- pow2_split by lia.
    eapply Z.le_trans; [|apply Hdlo]. apply Z.pow_le_mono_r; lia. }
  pose proof (round_nearest_even_bounds (shr_m r1) (loc_of_shr_record r1)) as Hm2.
  set (m2 := round_nearest_even (shr_m r1) (loc_of_shr_record r1)) in *.
  destruct (shr_fexp_spec m2 e1 loc_Exact) as (r2 & E2 & Hr2); [lia|].
  rewrite E2. cbv beta iota. rewrite fexp_eq in *.
  destruct m2 as [|p2|p2] eqn:Em2; [| |lia].
  - (* the mantissa rounds to zero *)
    cbn [Zdigits2] in *.
    replace (Z.max 0 (Z.max (0 + e1 - 53) (-1074) - e1)) with 0 in * by lia.
    rewrite Hr2. done.
  - cbn [Zdigits2] in *. set (d2 := Z.pos (digits2_pos p2)) in *.
    destruct (Z.eq_dec (Z.pos p2) (2 ^ 53)) as [Etop|Htop].
    + (* the mantissa rounds up to the next binade *)
      assert (Hd2 : d2 = 54).
      { unfold d2. injection Etop as ->. reflexivity. }
      replace (Z.max 0 (Z.max (d2 + e1 - 53) (-1074) - e1)) with 1 in * by lia.
      rewrite Hr2, Etop. change (2 ^ 53 / 2 ^ 1) with (Z.pos 4503599627370496).
      cbv beta iota.
      replace (e1 + 1 <=? Float.emax - Float.prec) with true
        by (symmetry; apply Z.leb_le; unfold Float.emax, Float.prec; lia).
      split; [done|]. split; [|lia].
      unfold Float.canonical. rewrite fexp_eq.
      change (Z.pos (digits2_pos 4503599627370496)) with 53. lia.
    + assert (Hd2 : d2 <= 53) by (apply digits2_le; lia).
      replace (Z.max 0 (Z.max (d2 + e1 - 53) (-1074) - e1)) with 0 in * by lia.
      rewrite Hr2, Z.pow_0_r, Z.div_1_r. cbv beta iota.
      replace (e1 + 0 <=? Float.emax - Float.prec) with true
        by (symmetry; apply Z.leb_le; unfold Float.emax, Float.prec; lia).
      split; [done|]. split; [|lia].
      unfold Float.canonical. rewrite fexp_eq. fold d2.
      destruct (Z.eq_dec e1 (-1074)) as [|Hne]; [lia|].
      assert (53 <= d2); [|lia].
      apply (digits2_ge p2 52). lia.
Qed.

Lemma digits2_unique p k :
  2 ^ (k - 1) <= Z.pos p < 2 ^ k -> Z.pos (digits2_pos p) = k.
Proof.
  intros [Hlo Hhi]. apply digits2_le in Hhi. apply digits2_ge in Hlo. lia.
Qed.

Lemma Pos_iter_xO m d : Z.pos (Pos.iter xO m d) = Z.pos m * 2 ^ Z.pos d.
Proof.
  induction d as [|d IH] using Pos.peano_ind.
  - cbn [Pos.iter]. rewrite Z.pow_1_r. lia.
  - rewrite Pos.iter_succ, Pos2Z.inj_succ, Z.pow_succ_r by lia.
    rewrite Pos2Z.inj_xO, IH. ring.
Qed.

Lemma shl_align_spec m e e' :
  exists m', shl_align m e e' = (m', Z.min e e') /\
             Z.pos m' = Z.pos m * 2 ^ (e - Z.min e e').
Proof.
  unfold shl_align. destruct (e' - e) as [|d|d] eqn:E.
  - exists m. rewrite Z.min_l by lia. rewrite Z.sub_diag. split; [done|lia].
  - exists m. rewrite Z.min_l by lia. rewrite Z.sub_diag. split; [done|lia].
  - exists (Pos.iter xO m d). rewrite Z.min_r by lia. split; [done|].
    rewrite Pos_iter_xO. f_equal. f_equal. lia.
Qed.

Lemma digits2_shift m m' k :
  0 <= k -> Z.pos m' = Z.pos m * 2 ^ k ->
  Z.pos (digits2_pos m') = Z.pos (digits2_pos m) + k.
Proof.
  intros Hk E. destruct (digits2_bounds m) as [Hlo Hhi].
  assert (0 < 2 ^ k) by (apply Z.pow_pos_nonneg; lia).
  apply digits2_unique. rewrite E. split.
  - replace (Z.pos (digits2_pos m) + k - 1)
      with ((Z.pos (digits2_pos m) - 1) + k) by lia.
    rewrite pow2_split by lia. by apply Z.mul_le_mono_nonneg_r; [lia|].
  - rewrite pow2_split by lia. apply Z.mul_lt_mono_pos_r; lia.
Qed.

Lemma binary_round_rounded s m e K :
  fexp Float.prec Float.emax (Z.pos (digits2_pos m) + e) <= K ->
  K < 971 ->
  Float.rounded s (K + 1) (binary_round Float.prec Float.emax s m e).
Proof.
  intros HK HK'. unfold binary_round.
  set (F := fexp Float.prec Float.emax (Z.pos (digits2_pos m) + e)) in *.
  destruct (shl_align_spec m e F) as (mz & E & Hmz).
  rewrite E.
  assert (Hd : Z.pos (digits2_pos mz) + Z.min e F =
               Z.pos (digits2_pos m) + e).
  { rewrite (digits2_shift m mz (e - Z.min e F)); [lia|lia|done]. }
  apply binary_round_aux_rounded; rewrite ?Hd; fold F; lia.
Qed.

Lemma binary_normalize_within z e B K :
  Z.abs z < 2 ^ B ->
  Z.max (B + e - 53) (-1074) <= K ->
  K < 971 ->
  Float.within (K + 1) (binary_normalize Float.prec Float.emax z e false).
Proof.
  intros Hz HK HK'.
  assert (Hr : forall s m, Z.pos m < 2 ^ B ->
             Float.within (K + 1) (binary_round Float.prec Float.emax s m e)).
  { intros s m Hm.
    assert (H : Float.rounded s (K + 1)
                  (binary_round Float.prec Float.emax s m e)).
    { apply binary_round_rounded; [|done]. rewrite fexp_eq.
      apply digits2_le in Hm. lia. }
    destruct (binary_round _ _ s m e); cbn in *; tauto. }
  destruct z as [|m|m]; cbn [binary_normalize]; [done|apply Hr; lia..].
Qed.

Lemma within_mono K K' f : Float.within K f -> K <= K' -> Float.within K' f.
Proof. destruct f; cbn; try done. intros (? & ?) ?. split; [done|lia]. Qed.

Lemma canonical_digits m e : Float.canonical m e -> Z.pos (digits2_pos m) <= 53.
Proof. unfold Float.canonical. rewrite fexp_eq. lia. Qed.

(** ** The operations stay in range *)

Lemma of_Z_within z B :
  Z.abs z < 2 ^ B -> 53 <= B <= 1023 -> Float.within (B - 52) (Float.of_Z z).
Proof.
  intros Hz HB. unfold Float.of_Z.
  replace (B - 52) with (B - 53 + 1) by lia.
  apply (binary_normalize_within z 0 B); [done|lia..].
Qed.

(** Multiplication by a normal constant. *)
Lemma mul_within K x sc mc ec :
  Float.within K x ->
  Z.pos (digits2_pos mc) = 53 ->
  -1074 <= 53 + K + ec < 971 ->
  Float.within (54 + K + ec) (Float.mul x (S754_finite sc mc ec)).
Proof.
  intros Hx Hmc HK. destruct x as [s| | |s m e]; try done.
  destruct Hx as [Hcan He]. unfold Float.mul. cbn [SFmul].
  apply canonical_digits in Hcan.
  destruct (digits2_bounds m) as [Hlo Hhi].
  destruct (digits2_bounds mc) as [Hclo Hchi]. rewrite Hmc in *.
  change (53 - 1) with 52 in Hclo.
  set (d := Z.pos (digits2_pos m)) in *.
  assert (Hd : 1 <= d) by (unfold d; lia).
  assert (Hplo : 2 ^ (d + 51) <= Z.pos (m * mc)).
  { replace (d + 51) with ((d - 1) + 52) by lia. rewrite pow2_split by lia.
    rewrite Pos2Z.inj_mul. apply Z.mul_le_mono_nonneg; lia. }
  assert (Hphi : Z.pos (m * mc) < 2 ^ (d + 53)).
  { rewrite pow2_split by lia. rewrite Pos2Z.inj_mul.
    apply Z.mul_lt_mono_nonneg; lia. }
  apply digits2_ge in Hplo. apply digits2_le in Hphi.
  assert (H : Float.rounded (xorb s sc) (53 + K + ec + 1)
                (binary_round_aux Float.prec Float.emax (xorb s sc)
                   (Z.pos (m * mc)) (e + ec) loc_Exact)).
  { apply binary_round_aux_rounded; rewrite ?fexp_eq; lia. }
  replace (54 + K + ec) with (53 + K + ec + 1) by lia.
  destruct (binary_round_aux _ _ _ _ _ _); cbn in *; tauto.
Qed.

Lemma aligned_bound K m e ez :
  Float.canonical m e -> e <= K -> ez <= e ->
  Z.pos (fst (shl_align m e ez)) < 2 ^ (53 + K - ez).
Proof.
  intros Hcan He Hez. apply canonical_digits in Hcan.
  destruct (shl_align_spec m e ez) as (m' & E & Hm'). rewrite E. cbn [fst].
  rewrite Hm', Z.min_r by lia.
  destruct (digits2_bounds m) as [_ Hhi].
  assert (Z.pos m < 2 ^ 53).
  { eapply Z.lt_le_trans; [apply Hhi|]. apply Z.pow_le_mono_r; lia. }
  assert (0 < 2 ^ (e - ez)) by (apply Z.pow_pos_nonneg; lia).
  apply Z.lt_le_trans with (2 ^ 53 * 2 ^ (e - ez)).
  - apply Z.mul_lt_mono_pos_r; lia.
  - rewrite <- pow2_split by lia. apply Z.pow_le_mono_r; lia.
Qed.

Lemma aligned_sum_within K z a b ez :
  Z.abs z <= a + b ->
  a < 2 ^ (53 + K - ez) -> b < 2 ^ (53 + K - ez) ->
  ez <= K -> -1075 <= K -> K + 1 < 971 ->
  Float.within (K + 2) (binary_normalize Float.prec Float.emax z ez false).
Proof.
  intros Hz Ha Hb Hez HK HK'.
  replace (K + 2) with (K + 1 + 1) by lia.
  apply (binary_normalize_within z ez (54 + K - ez)); [|lia..].
  replace (54 + K - ez) with (1 + (53 + K - ez)) by lia.
  rewrite pow2_split, Z.pow_1_r by lia. lia.
Qed.

Lemma add_within K x y :
  Float.within K x -> Float.within K y ->
  -1075 <= K -> K + 1 < 971 ->
  Float.within (K + 2) (Float.add x y).
Proof.
  intros Hx Hy HK HK'.
  destruct x as [sx| | |sx mx ex], y as [sy| | |sy my ey]; try done.
  - by destruct sx, sy.
  - apply (within_mono K); [done|lia].
  - apply (within_mono K); [done|lia].
  - destruct Hx as [Hcx Hex], Hy as [Hcy Hey].
    unfold Float.add. cbn [SFadd].
    pose proof (aligned_bound K mx ex (Z.min ex ey) Hcx Hex ltac:(lia)) as Ha.
    pose proof (aligned_bound K my ey (Z.min ex ey) Hcy Hey ltac:(lia)) as Hb.
    refine (aligned_sum_within K _ _ _ _ _ Ha Hb _ _ _);
      [|lia..].
    clear Ha Hb.
    generalize (fst (shl_align mx ex (Z.min ex ey))).
    generalize (fst (shl_align my ey (Z.min ex ey))).
    intros a b. destruct sx, sy; cbn [cond_Zopp]; lia.
Qed.

Lemma sub_within K x y :
  Float.within K x -> Float.within K y ->
  -1075 <= K -> K + 1 < 971 ->
  Float.within (K + 2) (Float.sub x y).
Proof.
  intros Hx Hy HK HK'.
  destruct x as [sx| | |sx mx ex], y as [sy| | |sy my ey]; try done.
  - by destruct sx, sy.
  - apply (within_mono K); [done|lia].
  - apply (within_mono K); [done|lia].
  - destruct Hx as [Hcx Hex], Hy as [Hcy Hey].
    unfold Float.sub. cbn [SFsub].
    pose proof (aligned_bound K mx ex (Z.min ex ey) Hcx Hex ltac:(lia)) as Ha.
    pose proof (aligned_bound K my ey (Z.min ex ey) Hcy Hey ltac:(lia)) as Hb.
    refine (aligned_sum_within K _ _ _ _ _ Ha Hb _ _ _);
      [|lia..].
    clear Ha Hb.
    generalize (fst (shl_align mx ex (Z.min ex ey))).
    generalize (fst (shl_align my ey (Z.min ex ey))).
    intros a b. destruct sx, sy; cbn [cond_Zopp]; lia.
Qed.

Lemma py_int_within K x : Float.within K x -> exists c, py_int (py_max0 x) = Ok c.
Proof.
  intros Hx. unfold py_max0. destruct (float_gt_int x 0); [|by eexists].
  destruct x; try done; by eexists.
Qed.

(** ** The pipeline stays in range *)

Lemma float_of_int_within z B :
  Z.abs z < 2 ^ B -> 53 <= B <= 1023 ->
  exists g, float_of_int z = Ok g /\ Float.within (B - 52) g.
Proof.
  intros Hz HB. pose proof (of_Z_within z B Hz HB) as Hw.
  unfold float_of_int. destruct (Float.of_Z z); try done; eauto.
Qed.

Section InRange.

Variable selected : list feature.
Variable member_count : Z.
Variable g : spec_float.
Hypothesis Hg : Float.within 948 g.

Lemma surcharge_within : Float.within 948 (Spec.surcharge selected g).
Proof.
  unfold Spec.surcharge. destruct (Spec.has_premium selected); [|done].
  apply (within_mono 947); [|lia].
  by apply (mul_within 948 g false 5404319552844595 (-55)).
Qed.

Lemma after_surcharge_within :
  Float.within 950 (Spec.after_surcharge selected g).
Proof.
  unfold Spec.after_surcharge.
  apply (add_within 948); [done|apply surcharge_within|lia..].
Qed.

Lemma group_discount_within :
  Float.within 950 (Spec.group_discount selected member_count g).
Proof.
  unfold Spec.group_discount. destruct (2 <=? member_count); [|done].
  apply (within_mono 948); [|lia].
  apply (mul_within 950 _ false 7205759403792794 (-56));
    [apply after_surcharge_within|done|lia].
Qed.

Lemma after_group_within :
  Float.within 952 (Spec.after_group selected member_count g).
Proof.
  unfold Spec.after_group.
  apply (sub_within 950);
    [apply after_surcharge_within|apply group_discount_within|lia..].
Qed.

Lemma special_discount_within :
  Float.within 952 (Spec.special_discount selected member_count g).
Proof.
  unfold Spec.special_discount.
  destruct (Spec.exceeds _ 400); [|destruct (Spec.exceeds _ 200)];
    cbn; try done; split; try reflexivity; lia.
Qed.

Lemma final_total_within :
  Float.within 954
    (Float.sub (Spec.after_group selected member_count g)
       (Spec.special_discount selected member_count g)).
Proof.
  apply (sub_within 952);
    [apply after_group_within|apply special_discount_within|lia..].
Qed.

End InRange.

(** On a valid selection whose gross total is below [2 ^ 1000] in
    magnitude, no float of the body overflows and a cost is returned. *)
Lemma calculate_total_cost_succeeds plan_name base keys num_members :
  MEMBERSHIP_PLANS !! plan_name = Some base ->
  Forall valid_key keys ->
  Z.abs (Spec.gross base (map feature_at keys) num_members) < 2 ^ 1000 ->
  exists c d, calculate_total_cost plan_name keys num_members = Ok (c, d).
Proof.
  intros Hplan Hkeys Hgross.
  pose proof (calculate_total_cost_locals_valid _ _ _ num_members Hplan Hkeys)
    as Hloc. cbv zeta in Hloc.
  destruct (float_of_int_within _ 1000 Hgross ltac:(lia)) as (g & Eg & Hg).
  rewrite Eg in Hloc. cbn [bind] in Hloc.
  rewrite (calculate_total_cost_of_locals _ _ _ _ Hloc).
  cbn [Locals.final_total].
  destruct (py_int_within 954 _
              (final_total_within (map feature_at keys) num_members g Hg))
    as [c Hc].
  rewrite Hc. cbn [bind]. eauto.
Qed.

(** ** Comparison with a threshold, on exact values *)

Lemma Qscaled_split (a e z : Z) :
  z <= e -> (inject_Z a * 2 ^ e == inject_Z (a * 2 ^ (e - z)) * 2 ^ z)%Q.
Proof.
  intros Hz. rewrite inject_Z_mult, Zpower_Qpower by lia.
  replace e with ((e - z) + z) at 1 by lia.
  rewrite Qpower_plus by done. change (inject_Z 2) with 2%Q. ring.
Qed.

Lemma Qlt_scaled (a b e1 e2 : Z) :
  (inject_Z a * 2 ^ e1 < inject_Z b * 2 ^ e2)%Q <->
  a * 2 ^ (e1 - Z.min e1 e2) < b * 2 ^ (e2 - Z.min e1 e2).
Proof.
  rewrite (Qscaled_split a e1 (Z.min e1 e2)) by lia.
  rewrite (Qscaled_split b e2 (Z.min e1 e2)) by lia.
  rewrite Qmult_lt_r by apply Qpow2_pos. by rewrite <- Zlt_Qlt.
Qed.

(** For a float in range and a normal positive threshold, the comparison
    of the doubles is the strict comparison of the exact values. *)
Lemma float_gt_exact K x mt et q :
  Float.within K x ->
  Z.pos (digits2_pos mt) = 53 -> -1074 <= et ->
  Float.to_Q x = Some q ->
  SFcompare x (S754_finite false mt et) = Some Gt <->
  (inject_Z (Z.pos mt) * 2 ^ et < q)%Q.
Proof.
  intros Hx Hmt Het Hq.
  destruct (digits2_bounds mt) as [Htlo Hthi]. rewrite Hmt in *.
  change (53 - 1) with 52 in Htlo.
  assert (Htpos : (0 < inject_Z (Z.pos mt) * 2 ^ et)%Q).
  { rewrite <- (Qmult_0_l (2 ^ et)).
    apply Qmult_lt_compat_r; [apply Qpow2_pos|done]. }
  destruct x as [s| | |s m e]; try done; cbn in Hq; injection Hq as <-.
  - cbn. split; [discriminate|]. intros H. exfalso.
    apply (Qlt_irrefl 0). by eapply Qlt_trans.
  - destruct Hx as [Hcan He]. unfold Float.canonical in Hcan.
    rewrite fexp_eq in Hcan.
    destruct (digits2_bounds m) as [Hlo Hhi].
    set (d := Z.pos (digits2_pos m)) in *.
    assert (Hd : 1 <= d) by (unfold d; lia).
    destruct s; cbn [SFcompare cond_Zopp].
    + split; [discriminate|]. intros H. exfalso.
      apply (Qlt_irrefl 0). eapply Qlt_trans; [apply Htpos|].
      eapply Qlt_trans; [apply H|].
      rewrite <- (Qmult_0_l (2 ^ e)).
      apply Qmult_lt_compat_r; [apply Qpow2_pos|done].
    + rewrite Qlt_scaled, Pos.compare_cont_spec. cbn [Pos.switch_Eq].
      assert (Hm53 : Z.pos m < 2 ^ 53).
      { eapply Z.lt_le_trans; [apply Hhi|]. apply Z.pow_le_mono_r; lia. }
      destruct (Z.compare_spec e et) as [->|Hlt|Hgt].
      * rewrite Z.min_id, Z.sub_diag, Z.pow_0_r, !Z.mul_1_r.
        destruct (Pos.compare_spec m mt) as [->|?|?];
          (split; [try discriminate; lia|try done; lia]).
      * split; [discriminate|]. intros H. exfalso.
        rewrite Z.min_r, Z.sub_diag, Z.pow_0_r, Z.mul_1_r in H by lia.
        assert (2 ^ 1 <= 2 ^ (et - e)) by (apply Z.pow_le_mono_r; lia).
        assert (2 ^ 52 * 2 ^ 1 <= Z.pos mt * 2 ^ (et - e))
          by (apply Z.mul_le_mono_nonneg; lia).
        change (2 ^ 52 * 2 ^ 1) with (2 ^ 53) in *. lia.
      * split; [intros _|done].
        rewrite Z.min_l, Z.sub_diag, Z.pow_0_r, Z.mul_1_r by lia.
        assert (Hd53 : d = 53) by lia.
        rewrite Hd53 in Hlo. change (53 - 1) with 52 in Hlo.
        assert (2 ^ 1 <= 2 ^ (e - et)) by (apply Z.pow_le_mono_r; lia).
        assert (2 ^ 52 * 2 ^ 1 <= Z.pos m * 2 ^ (e - et))
          by (apply Z.mul_le_mono_nonneg; lia).
        change (2 ^ 52 * 2 ^ 1) with (2 ^ 53) in *. lia.
Qed.

Lemma float_gt_int_400 K x q :
  Float.within K x -> Float.to_Q x = Some q ->
  float_gt_int x 400 = true <-> (400 < q)%Q.
Proof.
  intros Hx Hq. unfold float_gt_int.
  change (Float.of_Z 400) with (S754_finite false 7036874417766400 (-44)).
  pose proof (float_gt_exact K x 7036874417766400 (-44) q Hx eq_refl ltac:(lia) Hq) as H.
  assert (E : (inject_Z (Z.pos 7036874417766400) * 2 ^ (-44) == 400)%Q)
    by reflexivity.
  rewrite E in H. rewrite <- H.
  destruct (SFcompare x _) as [[]|]; split; congruence.
Qed.

Lemma float_gt_int_200 K x q :
  Float.within K x -> Float.to_Q x = Some q ->
  float_gt_int x 200 = true <-> (200 < q)%Q.
Proof.
  intros Hx Hq. unfold float_gt_int.
  change (Float.of_Z 200) with (S754_finite false 7036874417766400 (-45)).
  pose proof (float_gt_exact K x 7036874417766400 (-45) q Hx eq_refl ltac:(lia) Hq) as H.
  assert (E : (inject_Z (Z.pos 7036874417766400) * 2 ^ (-45) == 200)%Q)
    by reflexivity.
  rewrite E in H. rewrite <- H.
  destruct (SFcompare x _) as [[]|]; split; congruence.
Qed.

Lemma within_to_Q K x : Float.within K x -> exists q, Float.to_Q x = Some q.
Proof. destruct x; try done; cbn; eauto. Qed.

(** ** Signs *)

Lemma binary_round_aux_sign s mx ex lx :
  match binary_round_aux Float.prec Float.emax s mx ex lx with
  | S754_zero s' | S754_infinity s' | S754_finite s' _ _ => s' = s
  | S754_nan => True
  end.
Proof.
  unfold binary_round_aux.
  destruct (shr_fexp _ _ mx ex lx) as [r1 e1].
  destruct (shr_fexp _ _ _ e1 loc_Exact) as [r2 e2].
  destruct (shr_m r2); try done. by destruct (e2 <=? _).
Qed.

Lemma binary_normalize_nonpositive z e :
  z <= 0 ->
  Float.nonpositive (binary_normalize Float.prec Float.emax z e false).
Proof.
  intros Hz. destruct z as [|p|p]; [done|lia|].
  cbn [binary_normalize]. unfold binary_round.
  destruct (shl_align p e _) as [mz ez].
  pose proof (binary_round_aux_sign true (Z.pos mz) ez loc_Exact) as H.
  by destruct (binary_round_aux _ _ _ _ _ _).
Qed.

Lemma of_Z_nonpositive z : z <= 0 -> Float.nonpositive (Float.of_Z z).
Proof. apply binary_normalize_nonpositive. Qed.

Lemma mul_nonpositive x mc ec :
  Float.nonpositive x ->
  Float.nonpositive (Float.mul x (S754_finite false mc ec)).
Proof.
  destruct x as [s|s| |s m e]; cbn; try done.
  - intros ->. reflexivity.
  - intros ->. cbn [xorb].
    pose proof (binary_round_aux_sign true (Z.pos (m * mc)) (e + ec) loc_Exact)
      as H.
    by destruct (binary_round_aux _ _ _ _ _ _).
Qed.

Lemma add_nonpositive x y :
  Float.nonpositive x -> Float.nonpositive y ->
  Float.nonpositive (Float.add x y).
Proof.
  destruct x as [sx|sx| |sx mx ex], y as [sy|sy| |sy my ey]; cbn;
    try done; try (by intros -> ->); try (by destruct sx, sy).
  intros -> ->. cbn [cond_Zopp].
  apply binary_normalize_nonpositive. lia.
Qed.

Lemma sub_zero_r x : Float.sub x Float.lit_0_0 = x.
Proof. by destruct x as [[]|[]| |]. Qed.

Lemma float_gt_int_nonpositive x t :
  Float.nonpositive x ->
  t = 0 \/ t = 200 \/ t = 400 ->
  float_gt_int x t = false.
Proof.
  intros Hx [-> | [-> | ->]]; unfold float_gt_int;
    destruct x as [s|s| |s m e]; cbn in Hx; subst; try done.
Qed.

(** ** The clamp and the conversion to int *)

Lemma py_int_max0_cases x :
  (exists c, py_int (py_max0 x) = Ok c /\ 0 <= c) \/
  py_int (py_max0 x) =
    Raise (PyExc OverflowError "cannot convert float infinity to integer").
Proof.
  unfold py_max0. destruct (float_gt_int x 0) eqn:Hgt.
  - apply float_gt_int_0_inv in Hgt as [-> | (m & e & ->)]; [by right|].
    left. eexists. split; [reflexivity|].
    cbn [cond_Zopp]. by apply Z.shiftl_nonneg.
  - left. by exists 0.
Qed.

Lemma float_of_int_error z e :
  float_of_int z = Raise e -> exc_kind e = OverflowError.
Proof.
  unfold float_of_int. destruct (Float.of_Z z); try discriminate.
  by intros [= <-].
Qed.

(** ** The gross total *)

Lemma gross_sign base keys num_members :
  50 <= base ->
  (1 <= num_members -> 50 <= Spec.gross base (map feature_at keys) num_members) /\
  (num_members <= 0 -> Spec.gross base (map feature_at keys) num_members <= 0).
Proof.
  intros Hbase. unfold Spec.gross. rewrite <- resolved_cost.
  pose proof (Zsum_costs_nonneg keys). split; intros; nia.
Qed.

(** The outcome of [calculate_total_cost] on a valid selection, from the
    conversion of the gross total on. *)
Lemma calculate_total_cost_valid plan_name base keys num_members :
  MEMBERSHIP_PLANS !! plan_name = Some base ->
  Forall valid_key keys ->
  let selected := map feature_at keys in
  calculate_total_cost plan_name keys num_members =
  let* g := float_of_int (Spec.gross base selected num_members) in
  let* c :=
    py_int (py_max0 (Float.sub (Spec.after_group selected num_members g)
                       (Spec.special_discount selected num_members g))) in
  Ok (c, Spec.breakdown base selected num_members g).
Proof.
  intros Hplan Hkeys selected. unfold calculate_total_cost.
  rewrite (calculate_total_cost_locals_valid _ _ _ _ Hplan Hkeys).
  fold selected. by destruct (float_of_int _).
Qed.

(** * The claims *)

(** ** Failures *)

(** C5: for a plan name absent from the plan catalog, and whatever the
    feature keys (valid or not) and the member count,
    [calculate_total_cost] raises the invalid-plan [ValueError]; its body
    stops there, before any feature is resolved, and no breakdown is
    returned. *)
Theorem unknown_plan_fails plan_name keys num_members :
  MEMBERSHIP_PLANS !! plan_name = None ->
  calculate_total_cost_locals plan_name keys num_members =
    Raise (PyExc ValueError "Invalid membership plan.") /\
  calculate_total_cost plan_name keys num_members =
    Raise (PyExc ValueError "Invalid membership plan.").
Proof.
  intros Hplan. unfold calculate_total_cost, calculate_total_cost_locals.
  by rewrite Hplan.
Qed.

Lemma unknown_plan_fails_witness :
  MEMBERSHIP_PLANS !! "Gold" = None /\
  calculate_total_cost "Gold" ["1"; "9"] 0 =
    Raise (PyExc ValueError "Invalid membership plan.").
Proof.
  split; [reflexivity|].
  apply (unknown_plan_fails "Gold" ["1"; "9"] 0). reflexivity.
Defined.

(** C6: for a valid plan and a key list with at least one key absent from
    the feature catalog, [calculate_total_cost] raises the
    invalid-feature-key [ValueError] whose message names the first unknown
    key of the list, whatever the keys around it; nothing is returned. *)
Theorem unknown_feature_key_fails plan_name keys num_members :
  valid_plan plan_name ->
  Exists (fun k => ADDITIONAL_FEATURES !! k = None) keys ->
  exists pre key post,
    keys = pre ++ key :: post /\
    Forall valid_key pre /\
    ADDITIONAL_FEATURES !! key = None /\
    calculate_total_cost plan_name keys num_members =
      Raise (PyExc ValueError ("Invalid feature key: " +:+ key)).
Proof.
  intros [base Hplan] HE.
  destruct (first_invalid_split keys HE) as (pre & key & post & -> & Hpre & Hkey).
  exists pre, key, post. repeat split; try done.
  unfold calculate_total_cost, calculate_total_cost_locals.
  rewrite Hplan. unfold _get_features_details.
  by rewrite (features_loop_first_invalid pre key post _ Hpre Hkey).
Qed.

Lemma unknown_feature_key_fails_witness :
  exists pre key post,
    ["1"; "9"; "2"; "7"] = pre ++ key :: post /\
    Forall valid_key pre /\
    ADDITIONAL_FEATURES !! key = None /\
    calculate_total_cost "Basic" ["1"; "9"; "2"; "7"] 1 =
      Raise (PyExc ValueError ("Invalid feature key: " +:+ key)).
Proof.
  apply (unknown_feature_key_fails "Basic" ["1"; "9"; "2"; "7"] 1).
  - exists 50. reflexivity.
  - apply Exists_cons_tl, Exists_cons_hd. reflexivity.
Defined.

(** C7, as stated, fails: the error raised for an unknown plan and the
    error raised for an unknown feature key are of the same kind. *)
Lemma error_kinds_not_distinct :
  ~ (forall e_plan e_key,
       calculate_total_cost "Gold" [] 1 = Raise e_plan ->
       calculate_total_cost "Basic" ["9"] 1 = Raise e_key ->
       exc_kind e_plan <> exc_kind e_key).
Proof.
  intros H.
  apply (H (PyExc ValueError "Invalid membership plan.")
           (PyExc ValueError "Invalid feature key: 9")); reflexivity.
Qed.

(** C7, amended: both failures raise a [ValueError]; the two are told apart
    by their messages only, which are never equal. *)
Theorem failures_differ_by_message
  plan_name keys num_members plan_name' keys' num_members' :
  MEMBERSHIP_PLANS !! plan_name = None ->
  valid_plan plan_name' ->
  Exists (fun k => ADDITIONAL_FEATURES !! k = None) keys' ->
  exists e_plan e_key,
    calculate_total_cost plan_name keys num_members = Raise e_plan /\
    calculate_total_cost plan_name' keys' num_members' = Raise e_key /\
    exc_kind e_plan = ValueError /\
    exc_kind e_key = ValueError /\
    exc_msg e_plan <> exc_msg e_key.
Proof.
  intros Hplan [base Hplan'] HE.
  destruct (first_invalid_split keys' HE) as (pre & key & post & -> & Hpre & Hkey).
  exists (PyExc ValueError "Invalid membership plan."),
         (PyExc ValueError ("Invalid feature key: " +:+ key)).
  repeat split.
  - unfold calculate_total_cost, calculate_total_cost_locals. by rewrite Hplan.
  - unfold calculate_total_cost, calculate_total_cost_locals.
    rewrite Hplan'. unfold _get_features_details.
    by rewrite (features_loop_first_invalid pre key post _ Hpre Hkey).
  - simpl. discriminate.
Qed.

Lemma failures_differ_by_message_witness :
  exists e_plan e_key,
    calculate_total_cost "Gold" ["1"] 3 = Raise e_plan /\
    calculate_total_cost "Family" ["2"; "x"] 2 = Raise e_key /\
    exc_kind e_plan = ValueError /\
    exc_kind e_key = ValueError /\
    exc_msg e_plan <> exc_msg e_key.
Proof.
  apply (failures_differ_by_message "Gold" ["1"] 3 "Family" ["2"; "x"] 2).
  - reflexivity.
  - exists 150. reflexivity.
  - apply Exists_cons_tl, Exists_cons_hd. reflexivity.
Defined.

(** ** Feature resolution *)

(** C9: a repeated key is neither rejected nor merged.  On a list of valid
    keys [_get_features_details] succeeds; the names come out one per key,
    in the order supplied; a key that occurs [n] times has its name [n]
    times in the list and its cost [n] times in the feature cost; and the
    breakdown of [calculate_total_cost] carries this very list of names. *)
Theorem duplicate_keys_counted keys :
  Forall valid_key keys ->
  exists features_cost selected_names has_premium,
    _get_features_details keys =
      Ok (features_cost, selected_names, has_premium) /\
    selected_names = map (fun k => name (feature_at k)) keys /\
    (forall k, valid_key k ->
       count_occ String.string_dec selected_names (name (feature_at k)) =
       count_occ String.string_dec keys k) /\
    features_cost =
        Z.of_nat (count_occ String.string_dec keys "1") * cost (feature_at "1")
      + Z.of_nat (count_occ String.string_dec keys "2") * cost (feature_at "2")
      + Z.of_nat (count_occ String.string_dec keys "3") * cost (feature_at "3")
      + Z.of_nat (count_occ String.string_dec keys "4") * cost (feature_at "4") /\
    (forall plan_name num_members c d,
       calculate_total_cost plan_name keys num_members = Ok (c, d) ->
       features_names d = selected_names).
Proof.
  intros Hkeys. do 3 eexists.
  split; [apply (get_features_details_valid _ Hkeys)|].
  split; [reflexivity|].
  split; [intros k Hk; by apply count_occ_names|].
  split; [by apply Zsum_costs_by_key|].
  intros plan_name num_members c d Hcalc.
  destruct (calculate_total_cost_Ok_plan _ _ _ _ Hcalc) as [base Hplan].
  rewrite (calculate_total_cost_pipeline _ _ _ _ Hplan Hkeys) in Hcalc.
  unfold Spec.pricing in Hcalc.
  destruct (float_of_int _) as [g|]; [|discriminate].
  cbn [bind] in Hcalc. destruct (Spec.truncate _); [|discriminate].
  cbn [bind] in Hcalc. injection Hcalc as _ <-.
  cbn [features_names Spec.breakdown]. by rewrite resolved_names.
Qed.

Lemma duplicate_keys_counted_witness :
  exists features_cost selected_names has_premium,
    _get_features_details ["2"; "4"; "2"; "2"] =
      Ok (features_cost, selected_names, has_premium) /\
    selected_names =
      ["Group Classes"; "Nutritional Plan"; "Group Classes"; "Group Classes"] /\
    features_cost = 120.
Proof.
  destruct (duplicate_keys_counted ["2"; "4"; "2"; "2"])
    as (c & ns & hp & H1 & H2 & _ & H4 & _).
  - repeat constructor; eexists; reflexivity.
  - exists c, ns, hp. split; [exact H1|]. split; [exact H2|exact H4].
Defined.

(** ** The pricing pipeline *)

(** C2: the seven scenarios of the test suite evaluate to the costs the
    tests expect. *)
Theorem concrete_scenarios :
  cost_of (calculate_total_cost "Basic" [] 1) = Ok 50 /\
  cost_of (calculate_total_cost "Premium" ["2"] 1) = Ok 120 /\
  cost_of (calculate_total_cost "Basic" [] 2) = Ok 90 /\
  cost_of (calculate_total_cost "Basic" ["3"] 1) = Ok 103 /\
  cost_of (calculate_total_cost "Family" [] 2) = Ok 250 /\
  cost_of (calculate_total_cost "Family" [] 4) = Ok 490 /\
  cost_of (calculate_total_cost "Premium" ["4"] 2) = Ok 311.
Proof. repeat split; vm_compute; reflexivity. Qed.

(** C1: for a plan of the catalog, keys that are all in the feature
    catalog and at least one member, [calculate_total_cost] is the staged
    pipeline of the specification: the gross total, the 15% surcharge when
    and only when a selected feature is premium, the 10% group discount of
    the total after surcharge when and only when there are two members or
    more, then the flat special discount, the clamp and the truncation, in
    this order. *)
Theorem staged_pipeline plan_name base keys num_members :
  MEMBERSHIP_PLANS !! plan_name = Some base ->
  Forall valid_key keys ->
  1 <= num_members ->
  let selected := map feature_at keys in
  calculate_total_cost plan_name keys num_members =
    Spec.pricing base selected num_members /\
  (Spec.has_premium selected = true <->
   exists k, In k keys /\ is_premium (feature_at k) = true) /\
  (forall g,
     Spec.surcharge selected g =
       if Spec.has_premium selected then Float.mul g Float.lit_0_15
       else Float.lit_0_0) /\
  (forall g,
     Spec.group_discount selected num_members g =
       if Z_le_dec 2 num_members
       then Float.mul (Spec.after_surcharge selected g) Float.lit_0_10
       else Float.lit_0_0).
Proof.
  intros Hplan Hkeys _ selected. split; [|split; [|split]].
  - by apply calculate_total_cost_pipeline.
  - unfold selected. rewrite <- resolved_premium, existsb_exists. reflexivity.
  - reflexivity.
  - intros g. unfold Spec.group_discount.
    destruct (Z_le_dec 2 num_members) as [H|H], (Z.leb_spec 2 num_members);
      try reflexivity; lia.
Qed.

Lemma staged_pipeline_witness :
  calculate_total_cost "Premium" ["4"; "1"] 3 =
    Spec.pricing 100 (map feature_at ["4"; "1"]) 3.
Proof.
  apply (staged_pipeline "Premium" 100 ["4"; "1"] 3).
  - reflexivity.
  - repeat constructor; eexists; reflexivity.
  - lia.
Defined.

(** C3: the cost returned is the pre-truncation total with its fractional
    part discarded, never a rounding to nearest.  When [final_total] is the
    float [x] of exact value [q], [q] is positive and the cost is the floor
    of [q]; where the fractional part of [q] is one half or more, rounding
    would give one more than the cost returned. *)
Theorem cost_is_truncated_total plan_name keys num_members fr c d :
  calculate_total_cost_locals plan_name keys num_members = Ok fr ->
  calculate_total_cost plan_name keys num_members = Ok (c, d) ->
  match Locals.final_total fr with
  | PyInt z => z = 0 /\ c = 0
  | PyFloat x =>
      exists q,
        Float.to_Q x = Some q /\
        (0 < q)%Q /\
        c = Spec.Qtruncate q /\
        c = Qfloor q /\
        (inject_Z c <= q)%Q /\ (q < inject_Z (c + 1))%Q /\
        ((inject_Z c + (1 # 2) <= q)%Q -> Qfloor (q + (1 # 2)) = c + 1)
  end.
Proof.
  intros Hloc Hcalc.
  rewrite (calculate_total_cost_of_locals _ _ _ _ Hloc) in Hcalc.
  destruct (calculate_total_cost_locals_inv _ _ _ _ Hloc) as (_ & _ & _ & Hfin).
  rewrite Hfin in *. unfold py_max0 in *.
  destruct (float_gt_int _ 0) eqn:Hgt.
  - apply float_gt_int_0_inv in Hgt as [Hx|(m & e & Hx)];
      rewrite Hx in *; [discriminate|].
    cbn [py_int bind cond_Zopp] in Hcalc. injection Hcalc as <- _.
    exists (inject_Z (Z.pos m) * 2 ^ e)%Q.
    assert (Hfl : Z.shiftl (Z.pos m) e = Qfloor (inject_Z (Z.pos m) * 2 ^ e))
      by (by rewrite Qfloor_shiftl).
    split; [reflexivity|]. split.
    { rewrite <- (Qmult_0_l (2 ^ e)).
      apply Qmult_lt_compat_r; [apply Qpow2_pos|done]. }
    split; [symmetry; apply (Qtruncate_shiftl false)|]. split; [done|].
    rewrite Hfl. split; [apply Qfloor_le|]. split; [apply Qlt_floor|].
    apply Qfloor_half_up.
  - cbn [py_int bind] in Hcalc. by injection Hcalc as <- _.
Qed.

Lemma cost_is_truncated_total_witness :
  exists fr d x q,
    calculate_total_cost_locals "Basic" ["3"] 1 = Ok fr /\
    calculate_total_cost "Basic" ["3"] 1 = Ok (103, d) /\
    Locals.final_total fr = PyFloat x /\
    Float.to_Q x = Some q /\ (q == 207 # 2)%Q /\
    match Locals.final_total fr with
    | PyInt z => z = 0 /\ 103 = 0
    | PyFloat x =>
        exists q,
          Float.to_Q x = Some q /\
          (0 < q)%Q /\
          103 = Spec.Qtruncate q /\
          103 = Qfloor q /\
          (inject_Z 103 <= q)%Q /\ (q < inject_Z (103 + 1))%Q /\
          ((inject_Z 103 + (1 # 2) <= q)%Q -> Qfloor (q + (1 # 2)) = 103 + 1)
    end.
Proof.
  do 4 eexists.
  split; [reflexivity|]. split; [reflexivity|]. split; [reflexivity|].
  split; [reflexivity|]. split; [reflexivity|].
  eapply (cost_is_truncated_total "Basic" ["3"] 1); reflexivity.
Defined.

(** C4: exactly one special-discount tier applies, chosen by strict
    comparisons of the total after group discount: 50 above 400, else 20
    above 200, else 0; a total of exactly 400 takes 20 and a total of
    exactly 200 takes 0.  The returned breakdown carries the tier chosen.
    For a valid selection with a gross total in the range of the floats,
    the total has an exact value and the comparisons are comparisons of
    that value. *)
Theorem special_discount_tiers plan_name keys num_members fr :
  calculate_total_cost_locals plan_name keys num_members = Ok fr ->
  let ag := Locals.total_after_group fr in
  let sd := Locals.special_discount fr in
  ((float_gt_int ag 400 = true /\ sd = Float.lit_50_0) \/
   (float_gt_int ag 400 = false /\ float_gt_int ag 200 = true /\
    sd = Float.lit_20_0) \/
   (float_gt_int ag 400 = false /\ float_gt_int ag 200 = false /\
    sd = Float.lit_0_0)) /\
  (ag = Float.of_Z 400 -> sd = Float.lit_20_0) /\
  (ag = Float.of_Z 200 -> sd = Float.lit_0_0) /\
  (forall c d,
     calculate_total_cost plan_name keys num_members = Ok (c, d) ->
     special_discount d = sd) /\
  (forall base,
     MEMBERSHIP_PLANS !! plan_name = Some base ->
     Forall valid_key keys ->
     Z.abs (Spec.gross base (map feature_at keys) num_members) < 2 ^ 1000 ->
     exists q,
       Float.to_Q ag = Some q /\
       (((400 < q)%Q /\ sd = Float.lit_50_0) \/
        ((200 < q)%Q /\ (q <= 400)%Q /\ sd = Float.lit_20_0) \/
        ((q <= 200)%Q /\ sd = Float.lit_0_0))).
Proof.
  intros Hloc ag sd.
  destruct (calculate_total_cost_locals_inv _ _ _ _ Hloc) as (_ & _ & Hsd & _).
  fold ag sd in Hsd.
  split; [|split; [|split; [|split]]].
  - rewrite Hsd.
    destruct (float_gt_int ag 400); [tauto|].
    destruct (float_gt_int ag 200); tauto.
  - intros E. rewrite Hsd, E. reflexivity.
  - intros E. rewrite Hsd, E. reflexivity.
  - intros c d Hcalc.
    rewrite (calculate_total_cost_of_locals _ _ _ _ Hloc) in Hcalc.
    destruct (py_int _); [|discriminate].
    cbn [bind] in Hcalc. by injection Hcalc as _ <-.
  - intros base Hplan Hkeys Hgross.
    pose proof (calculate_total_cost_locals_valid _ _ _ num_members Hplan Hkeys)
      as Hval. cbv zeta in Hval.
    destruct (float_of_int_within _ 1000 Hgross ltac:(lia)) as (g & Eg & Hg).
    rewrite Eg, Hloc in Hval. cbn [bind] in Hval. injection Hval as Hfr.
    assert (Hag : Float.within 952 ag).
    { unfold ag. rewrite Hfr. cbn [Locals.total_after_group].
      by apply after_group_within. }
    destruct (within_to_Q _ _ Hag) as [q Hq]. exists q. split; [done|].
    pose proof (float_gt_int_400 _ _ _ Hag Hq) as H400.
    pose proof (float_gt_int_200 _ _ _ Hag Hq) as H200.
    rewrite Hsd.
    destruct (float_gt_int ag 400).
    + left. split; [by apply H400|done].
    + right. assert (Hle : (q <= 400)%Q).
      { apply Qnot_lt_le. intros H. apply H400 in H. discriminate. }
      destruct (float_gt_int ag 200).
      * left. split; [by apply H200|done].
      * right. split; [|done].
        apply Qnot_lt_le. intros H. apply H200 in H. discriminate.
Qed.

Lemma special_discount_tiers_witness :
  exists fr,
    calculate_total_cost_locals "Premium"
      ["1"; "1"; "1"; "1"; "1"; "1"; "1"; "1"; "1"; "1"] 1 = Ok fr /\
    Locals.total_after_group fr = Float.of_Z 400 /\
    Locals.special_discount fr = Float.lit_20_0.
Proof.
  eexists. split; [reflexivity|]. split; [reflexivity|].
  eapply (special_discount_tiers "Premium"
            ["1"; "1"; "1"; "1"; "1"; "1"; "1"; "1"; "1"; "1"] 1);
    reflexivity.
Defined.

(** A total of exactly 200 takes no special discount. *)
Example threshold_200_no_discount :
  exists fr d,
    calculate_total_cost_locals "Family" ["1"; "2"] 1 = Ok fr /\
    Locals.total_after_group fr = Float.of_Z 200 /\
    calculate_total_cost "Family" ["1"; "2"] 1 = Ok (200, d) /\
    special_discount d = Float.lit_0_0.
Proof. do 2 eexists. repeat split; reflexivity. Qed.

(** A total of exactly 400 takes the discount of 20. *)
Example threshold_400_discount_20 :
  exists d,
    calculate_total_cost "Premium"
      ["1"; "1"; "1"; "1"; "1"; "1"; "1"; "1"; "1"; "1"] 1 = Ok (380, d) /\
    special_discount d = Float.lit_20_0.
Proof. eexists. split; reflexivity. Qed.

(** ** The clamp *)

(** C8: for a valid plan, valid feature keys and at least one member, the
    cost returned is never negative.  The call returns whenever the gross
    total is below [2 ^ 1000]; beyond the range of the floats it raises
    [OverflowError] and returns nothing, and it fails in no other way. *)
Theorem final_cost_nonnegative plan_name base keys num_members :
  MEMBERSHIP_PLANS !! plan_name = Some base ->
  Forall valid_key keys ->
  1 <= num_members ->
  (forall c d,
     calculate_total_cost plan_name keys num_members = Ok (c, d) -> 0 <= c) /\
  (forall e,
     calculate_total_cost plan_name keys num_members = Raise e ->
     exc_kind e = OverflowError) /\
  (Spec.gross base (map feature_at keys) num_members < 2 ^ 1000 ->
   exists c d,
     calculate_total_cost plan_name keys num_members = Ok (c, d) /\ 0 <= c).
Proof.
  intros Hplan Hkeys Hm.
  pose proof (calculate_total_cost_valid _ _ _ num_members Hplan Hkeys) as Hcalc.
  cbv zeta in Hcalc.
  assert (Hnonneg : forall c d,
            calculate_total_cost plan_name keys num_members = Ok (c, d) ->
            0 <= c).
  { intros c d. rewrite Hcalc.
    destruct (float_of_int _) as [g|]; [|discriminate]. cbn [bind].
    destruct (py_int_max0_cases
                (Float.sub (Spec.after_group (map feature_at keys) num_members g)
                   (Spec.special_discount (map feature_at keys) num_members g)))
      as [(c' & -> & Hc')| ->]; [|discriminate].
    cbn [bind]. by intros [= <- _]. }
  split; [done|]. split.
  - intros e. rewrite Hcalc.
    destruct (float_of_int _) as [g|e'] eqn:Eg.
    + cbn [bind].
      destruct (py_int_max0_cases
                  (Float.sub (Spec.after_group (map feature_at keys) num_members g)
                     (Spec.special_discount (map feature_at keys) num_members g)))
        as [(c' & -> & Hc')| ->]; [discriminate|].
      cbn [bind]. by intros [= <-].
    + cbn [bind]. intros [= <-]. by apply float_of_int_error in Eg.
  - intros Hgross.
    destruct (plan_base_positive _ _ Hplan) as [Hbase _].
    destruct (gross_sign base keys num_members Hbase) as [Hpos _].
    destruct (calculate_total_cost_succeeds plan_name base keys num_members
                Hplan Hkeys) as (c & d & Hcd); [lia|].
    exists c, d. split; [done|]. by apply (Hnonneg c d).
Qed.

Lemma final_cost_nonnegative_witness :
  exists c d,
    calculate_total_cost "Family" ["3"; "1"] 5 = Ok (c, d) /\ 0 <= c.
Proof.
  apply (final_cost_nonnegative "Family" 150 ["3"; "1"] 5).
  - reflexivity.
  - repeat constructor; eexists; reflexivity.
  - lia.
  - reflexivity.
Defined.

(** ** Member counts below one *)

(** C10, as stated, fails: with a member count far enough below zero the
    gross total does not convert to a float and the call raises instead of
    returning 0. *)
Lemma huge_negative_member_count_raises :
  calculate_total_cost "Basic" [] (- 2 ^ 1024) =
    Raise (PyExc OverflowError "int too large to convert to float") /\
  ~ (exists d, calculate_total_cost "Basic" [] (- 2 ^ 1024) = Ok (0, d)).
Proof.
  assert (H : calculate_total_cost "Basic" [] (- 2 ^ 1024) =
              Raise (PyExc OverflowError "int too large to convert to float"))
    by (vm_compute; reflexivity).
  split; [exact H|]. intros [d Hd]. rewrite H in Hd. discriminate Hd.
Qed.

(** C10, amended: for a valid plan, valid feature keys and a member count
    of zero or less, the gross total is not positive, and the call succeeds
    exactly when the gross total converts to a float, as it does whenever
    it is above [- 2 ^ 1023].  The cost returned is then 0, and neither the
    group discount nor the special discount applies.  When the gross total
    does not convert, the call raises the [OverflowError] of the
    conversion. *)
Theorem nonpositive_member_count_costs_zero plan_name base keys num_members :
  MEMBERSHIP_PLANS !! plan_name = Some base ->
  Forall valid_key keys ->
  num_members <= 0 ->
  let gross := Spec.gross base (map feature_at keys) num_members in
  gross <= 0 /\
  (forall g,
     float_of_int gross = Ok g ->
     exists d,
       calculate_total_cost plan_name keys num_members = Ok (0, d) /\
       base_total d = gross /\
       group_discount d = Float.lit_0_0 /\
       special_discount d = Float.lit_0_0) /\
  (forall e,
     float_of_int gross = Raise e ->
     calculate_total_cost plan_name keys num_members = Raise e /\
     exc_kind e = OverflowError) /\
  (- 2 ^ 1023 < gross -> exists g, float_of_int gross = Ok g).
Proof.
  intros Hplan Hkeys Hm gross.
  destruct (plan_base_positive _ _ Hplan) as [Hbase _].
  destruct (gross_sign base keys num_members Hbase) as [_ Hneg].
  specialize (Hneg Hm). fold gross in Hneg.
  pose proof (calculate_total_cost_valid _ _ _ num_members Hplan Hkeys) as Hcalc.
  cbv zeta in Hcalc. fold gross in Hcalc.
  set (selected := map feature_at keys) in *.
  split; [done|]. split; [|split].
  - intros g Eg. rewrite Hcalc, Eg. cbn [bind].
    assert (Hg : Float.nonpositive g).
    { unfold float_of_int in Eg. pose proof (of_Z_nonpositive gross Hneg) as H.
      destruct (Float.of_Z gross); try discriminate; by injection Eg as <-. }
    assert (Hgd : Spec.group_discount selected num_members g = Float.lit_0_0).
    { unfold Spec.group_discount.
      by destruct (Z.leb_spec 2 num_members); [lia|]. }
    assert (Hag : Float.nonpositive (Spec.after_group selected num_members g)).
    { unfold Spec.after_group. rewrite Hgd, sub_zero_r.
      unfold Spec.after_surcharge. apply add_nonpositive; [done|].
      unfold Spec.surcharge. destruct (Spec.has_premium selected); [|done].
      by apply mul_nonpositive. }
    assert (Hsd : Spec.special_discount selected num_members g = Float.lit_0_0).
    { unfold Spec.special_discount. rewrite !exceeds_float_gt_int.
      by rewrite !float_gt_int_nonpositive by (done || tauto). }
    rewrite Hsd, sub_zero_r. unfold py_max0.
    rewrite float_gt_int_nonpositive by (done || tauto). cbn [py_int bind].
    eexists. split; [reflexivity|].
    cbn [base_total group_discount special_discount Spec.breakdown].
    by rewrite Hgd, Hsd.
  - intros e Eg. rewrite Hcalc, Eg. cbn [bind].
    split; [done|]. by apply float_of_int_error in Eg.
  - intros Hgross.
    destruct (float_of_int_within gross 1023) as (g & Eg & _); [lia|lia|].
    by exists g.
Qed.

Lemma nonpositive_member_count_costs_zero_witness :
  exists d,
    calculate_total_cost "Premium" ["4"; "2"] (-3) = Ok (0, d) /\
    base_total d = -540 /\
    group_discount d = Float.lit_0_0 /\
    special_discount d = Float.lit_0_0.
Proof.
  eapply (nonpositive_member_count_costs_zero "Premium" 100 ["4"; "2"] (-3)).
  - reflexivity.
  - repeat constructor; eexists; reflexivity.
  - lia.
  - reflexivity.
Defined.

(** * Further properties of the pricing engine *)

(** ** The order of the selected features *)

Lemma Zsum_Permutation (l l' : list Z) : Permutation l l' -> Zsum l = Zsum l'.
Proof. induction 1; simpl in *; lia. Qed.

Lemma existsb_Permutation {A} (f : A -> bool) (l l' : list A) :
  Permutation l l' -> existsb f l = existsb f l'.
Proof.
  induction 1 as [|x l l' _ IH|x y l|l1 l2 l3 _ IH1 _ IH2]; simpl.
  - done.
  - by rewrite IH.
  - by destruct (f x), (f y).
  - congruence.
Qed.

Lemma calculate_total_cost_no_plan plan_name keys num_members :
  MEMBERSHIP_PLANS !! plan_name = None ->
  calculate_total_cost plan_name keys num_members =
  Raise (PyExc ValueError "Invalid membership plan.").
Proof.
  intros H. unfold calculate_total_cost, calculate_total_cost_locals.
  by rewrite H.
Qed.

(** X1: the features of a selection can be given in any order: the cost
    and the amounts of the breakdown are the same, and the names are the
    same up to their order. *)
Theorem feature_order_irrelevant plan_name keys keys' num_members :
  Permutation keys keys' ->
  Forall valid_key keys ->
  match calculate_total_cost plan_name keys num_members,
        calculate_total_cost plan_name keys' num_members with
  | Ok (c, d), Ok (c', d') =>
      c = c' /\
      base_total d = base_total d' /\
      surcharge d = surcharge d' /\
      group_discount d = group_discount d' /\
      special_discount d = special_discount d' /\
      Permutation (features_names d) (features_names d')
  | Raise e, Raise e' => e = e'
  | _, _ => False
  end.
Proof.
  intros Hperm Hkeys.
  assert (Hkeys' : Forall valid_key keys').
  { by rewrite <- Hperm. }
  destruct (MEMBERSHIP_PLANS !! plan_name) as [base|] eqn:Hplan.
  - rewrite !(calculate_total_cost_valid _ base) by done. cbv zeta.
    assert (Hcost : Spec.feature_cost (map feature_at keys) =
                    Spec.feature_cost (map feature_at keys')).
    { unfold Spec.feature_cost. apply Zsum_Permutation.
      by do 2 apply Permutation_map. }
    assert (Hprem : Spec.has_premium (map feature_at keys) =
                    Spec.has_premium (map feature_at keys')).
    { unfold Spec.has_premium. apply existsb_Permutation.
      by apply Permutation_map. }
    assert (Hnames : Permutation (Spec.feature_names (map feature_at keys))
                       (Spec.feature_names (map feature_at keys'))).
    { unfold Spec.feature_names. by do 2 apply Permutation_map. }
    unfold Spec.breakdown, Spec.special_discount, Spec.after_group,
      Spec.group_discount, Spec.after_surcharge, Spec.surcharge, Spec.gross.
    rewrite <- Hcost, <- Hprem.
    destruct (float_of_int _) as [g|e]; [|done]. cbn [bind].
    destruct (py_int _) as [c|e]; [|done]. cbn [bind].
    cbn [base_total surcharge group_discount special_discount features_names].
    by repeat split.
  - by rewrite !calculate_total_cost_no_plan.
Qed.

Lemma feature_order_irrelevant_witness :
  match calculate_total_cost "Premium" ["4"; "1"; "3"] 2,
        calculate_total_cost "Premium" ["1"; "3"; "4"] 2 with
  | Ok (c, d), Ok (c', d') =>
      c = c' /\
      base_total d = base_total d' /\
      surcharge d = surcharge d' /\
      group_discount d = group_discount d' /\
      special_discount d = special_discount d' /\
      Permutation (features_names d) (features_names d')
  | Raise e, Raise e' => e = e'
  | _, _ => False
  end.
Proof.
  apply (feature_order_irrelevant "Premium" ["4"; "1"; "3"] ["1"; "3"; "4"] 2).
  - apply perm_trans with ["1"; "4"; "3"]; [apply perm_swap|].
    apply perm_skip, perm_swap.
  - repeat constructor; eexists; reflexivity.
Defined.

(** ** Resolution of a selection given in two parts *)

Lemma features_loop_app keys1 keys2 st :
  features_loop (keys1 ++ keys2) st =
  let* st' := features_loop keys1 st in features_loop keys2 st'.
Proof.
  revert st. induction keys1 as [|k keys1 IH]; intros st; [done|].
  cbn [app features_loop].
  destruct (ADDITIONAL_FEATURES !! k); [|done].
  destruct st as [[c ns] hp]. apply IH.
Qed.

Lemma features_loop_from keys c ns hp :
  features_loop keys (c, ns, hp) =
  let* '(c', ns', hp') := _get_features_details keys in
  Ok (c + c', ns ++ ns', hp || hp').
Proof.
  unfold _get_features_details. revert c ns hp.
  induction keys as [|k keys IH]; intros c ns hp; cbn [features_loop].
  - cbn [bind]. by rewrite Z.add_0_r, app_nil_r, orb_false_r.
  - destruct (ADDITIONAL_FEATURES !! k) as [feat|]; [|done].
    rewrite IH, (IH (0 + cost feat)).
    destruct (features_loop keys (0, [], false)) as [[[c' ns'] hp']|]; [|done].
    cbn [bind]. f_equal. f_equal; [f_equal|].
    + lia.
    + by rewrite <- app_assoc.
    + by destruct (is_premium feat), hp, hp'.
Qed.

(** X2: resolving a selection made of two parts is resolving each part:
    the costs add up, the names follow one another, a premium feature in
    either part counts, and the first unknown key of the whole is the one
    reported. *)
Theorem get_features_details_app keys1 keys2 :
  _get_features_details (keys1 ++ keys2) =
  let* '(c1, ns1, hp1) := _get_features_details keys1 in
  let* '(c2, ns2, hp2) := _get_features_details keys2 in
  Ok (c1 + c2, ns1 ++ ns2, hp1 || hp2).
Proof.
  unfold _get_features_details at 1. rewrite features_loop_app.
  fold (_get_features_details keys1).
  destruct (_get_features_details keys1) as [[[c1 ns1] hp1]|]; [|done].
  cbn [bind]. apply features_loop_from.
Qed.


(** ** Rounding in the normal range *)

Lemma binary_round_aux_normal s m e l :
  let F := fexp Float.prec Float.emax (Z.pos (digits2_pos m) + e) in
  e <= F -> -1074 < F -> F < 971 ->
  exists m' e',
    binary_round_aux Float.prec Float.emax s (Z.pos m) e l =
      S754_finite s m' e' /\
    Float.canonical m' e' /\ F <= e' <= F + 1.
Proof.
  intros F Hin Hlo Hhi. subst F. unfold binary_round_aux.
  destruct (shr_fexp_spec (Z.pos m) e l) as (r1 & E1 & Hm1); [lia|].
  rewrite E1. cbv beta iota.
  cbn [Zdigits2] in *. rewrite fexp_eq in *.
  set (d := Z.pos (digits2_pos m)) in *.
  destruct (digits2_bounds m) as [Hdlo Hdhi]. fold d in Hdlo, Hdhi.
  set (n1 := Z.max 0 (Z.max (d + e - 53) (-1074) - e)) in *.
  set (e1 := e + n1) in *.
  assert (Hn1 : n1 = d - 53) by lia.
  assert (He1 : e1 = d + e - 53) by lia.
  assert (Hp1 : 0 < 2 ^ n1) by (apply Z.pow_pos_nonneg; lia).
  assert (Hm1hi : shr_m r1 < 2 ^ 53).
  { rewrite Hm1. apply Z.div_lt_upper_bound; [done|].
    rewrite <- pow2_split by lia.
    eapply Z.lt_le_trans; [apply Hdhi|]. apply Z.pow_le_mono_r; lia. }
  assert (Hm1lo : 2 ^ 52 <= shr_m r1).
  { rewrite Hm1. apply Z.div_le_lower_bound; [done|].
    rewrite <- pow2_split by lia.
    eapply Z.le_trans; [|apply Hdlo]. apply Z.pow_le_mono_r; lia. }
  pose proof (round_nearest_even_bounds (shr_m r1) (loc_of_shr_record r1)) as Hm2.
  set (m2 := round_nearest_even (shr_m r1) (loc_of_shr_record r1)) in *.
  assert (H52 : 0 < 2 ^ 52) by done.
  destruct (shr_fexp_spec m2 e1 loc_Exact) as (r2 & E2 & Hr2); [lia|].
  rewrite E2. cbv beta iota. rewrite fexp_eq in *.
  destruct m2 as [|p2|p2] eqn:Em2; [lia| |lia].
  cbn [Zdigits2] in *. set (d2 := Z.pos (digits2_pos p2)) in *.
  destruct (Z.eq_dec (Z.pos p2) (2 ^ 53)) as [Etop|Htop].
  - assert (Hd2 : d2 = 54).
    { unfold d2. injection Etop as ->. reflexivity. }
    replace (Z.max 0 (Z.max (d2 + e1 - 53) (-1074) - e1)) with 1 in * by lia.
    rewrite Hr2, Etop. change (2 ^ 53 / 2 ^ 1) with (Z.pos 4503599627370496).
    cbv beta iota.
    replace (e1 + 1 <=? Float.emax - Float.prec) with true
      by (symmetry; apply Z.leb_le; unfold Float.emax, Float.prec; lia).
    do 2 eexists. split; [reflexivity|]. split; [|lia].
    unfold Float.canonical. rewrite fexp_eq.
    change (Z.pos (digits2_pos 4503599627370496)) with 53. lia.
  - assert (Hd2 : d2 <= 53) by (apply digits2_le; lia).
    assert (53 <= d2) by (apply (digits2_ge p2 52); lia).
    replace (Z.max 0 (Z.max (d2 + e1 - 53) (-1074) - e1)) with 0 in * by lia.
    rewrite Hr2, Z.pow_0_r, Z.div_1_r. cbv beta iota.
    replace (e1 + 0 <=? Float.emax - Float.prec) with true
      by (symmetry; apply Z.leb_le; unfold Float.emax, Float.prec; lia).
    do 2 eexists. split; [reflexivity|]. split; [|lia].
    unfold Float.canonical. rewrite fexp_eq. fold d2. lia.
Qed.

Lemma binary_round_normal s m e :
  let F := fexp Float.prec Float.emax (Z.pos (digits2_pos m) + e) in
  -1074 < F -> F < 971 ->
  exists m' e',
    binary_round Float.prec Float.emax s m e = S754_finite s m' e' /\
    Float.canonical m' e' /\ F <= e' <= F + 1.
Proof.
  intros F Hlo Hhi. unfold binary_round. fold F.
  destruct (shl_align_spec m e F) as (mz & E & Hmz). rewrite E.
  assert (Hd : Z.pos (digits2_pos mz) + Z.min e F =
               Z.pos (digits2_pos m) + e).
  { rewrite (digits2_shift m mz (e - Z.min e F)); [lia|lia|done]. }
  pose proof (binary_round_aux_normal s mz (Z.min e F) loc_Exact) as H.
  cbv zeta in H. rewrite Hd in H. fold F in H. apply H; lia.
Qed.

Lemma canonical_normal m e :
  Float.canonical m e -> -1074 < e -> Z.pos (digits2_pos m) = 53.
Proof. unfold Float.canonical. rewrite fexp_eq. lia. Qed.

Lemma normal_mantissa m e :
  Float.canonical m e -> -1074 < e -> 2 ^ 52 <= Z.pos m < 2 ^ 53.
Proof.
  intros Hc He. pose proof (canonical_normal m e Hc He) as Hd.
  destruct (digits2_bounds m) as [Hlo Hhi]. rewrite Hd in *.
  by change (53 - 1) with 52 in Hlo.
Qed.

Lemma positive_between_mono L K L' K' f :
  positive_between L K f -> L' <= L -> K <= K' -> positive_between L' K' f.
Proof.
  destruct f as [| | |[] m e]; try done. cbn. intros (? & ? & ?) ? ?.
  split; [done|lia].
Qed.

Lemma positive_between_within L K f :
  positive_between L K f -> Float.within K f.
Proof.
  destruct f as [| | |[] m e]; try done. cbn. intros (? & ? & ?).
  split; [done|lia].
Qed.

(** ** The operations on floats above zero *)

Lemma of_Z_positive z k :
  2 ^ k <= z < 2 ^ 1000 -> 0 <= k ->
  positive_between (k - 52) 948 (Float.of_Z z).
Proof.
  intros [Hlo Hhi] Hk.
  assert (0 < 2 ^ k) by (apply Z.pow_pos_nonneg; lia).
  destruct z as [|p|p]; [lia| |lia].
  unfold Float.of_Z. cbn [binary_normalize].
  pose proof (digits2_ge p k Hlo). pose proof (digits2_le p 1000 Hhi).
  destruct (binary_round_normal false p 0) as (m' & e' & -> & Hc & He);
    cbv zeta; rewrite ?fexp_eq in *; try lia.
  cbn. split; [done|lia].
Qed.

(** Multiplication by a positive normal constant. *)
Lemma mul_positive L K x mc ec :
  positive_between L K x ->
  Z.pos (digits2_pos mc) = 53 ->
  -1074 < L -> -1074 < L + ec + 52 -> K + ec + 53 < 971 ->
  exists m e,
    Float.mul x (S754_finite false mc ec) = S754_finite false m e /\
    Float.canonical m e /\
    forall mx ex, x = S754_finite false mx ex ->
                  ex + ec + 52 <= e <= ex + ec + 54.
Proof.
  intros Hx Hmc HL HL' HK. destruct x as [| | |[] mx ex]; try done.
  destruct Hx as (Hcan & Hex). unfold Float.mul. cbn [SFmul xorb].
  destruct (normal_mantissa mx ex Hcan ltac:(lia)) as [Hxlo Hxhi].
  destruct (digits2_bounds mc) as [Hclo Hchi]. rewrite Hmc in *.
  change (53 - 1) with 52 in Hclo.
  assert (Hplo : 2 ^ 104 <= Z.pos (mx * mc)).
  { change (2 ^ 104) with (2 ^ 52 * 2 ^ 52).
    rewrite Pos2Z.inj_mul. apply Z.mul_le_mono_nonneg; lia. }
  assert (Hphi : Z.pos (mx * mc) < 2 ^ 106).
  { change (2 ^ 106) with (2 ^ 53 * 2 ^ 53).
    rewrite Pos2Z.inj_mul. apply Z.mul_lt_mono_nonneg; lia. }
  apply digits2_ge in Hplo. apply digits2_le in Hphi.
  destruct (binary_round_aux_normal false (mx * mc) (ex + ec) loc_Exact)
    as (m & e & -> & Hc & He); cbv zeta; rewrite ?fexp_eq in *; try lia.
  exists m, e. split; [done|]. split; [done|].
  intros ? ? [= <- <-]. lia.
Qed.

Lemma aligned_lower m e ez :
  Float.canonical m e -> -1074 < e -> ez <= e ->
  2 ^ (52 + e - ez) <= Z.pos (fst (shl_align m e ez)) < 2 ^ (53 + e - ez).
Proof.
  intros Hcan He Hez.
  destruct (normal_mantissa m e Hcan He) as [Hlo Hhi].
  destruct (shl_align_spec m e ez) as (m' & E & Hm'). rewrite E. cbn [fst].
  rewrite Hm', Z.min_r by lia.
  assert (0 < 2 ^ (e - ez)) by (apply Z.pow_pos_nonneg; lia).
  replace (52 + e - ez) with (52 + (e - ez)) by lia.
  replace (53 + e - ez) with (53 + (e - ez)) by lia.
  rewrite !pow2_split by lia. split.
  - apply Z.mul_le_mono_nonneg_r; lia.
  - apply Z.mul_lt_mono_pos_r; lia.
Qed.

(** The sum of two floats above zero. *)
Lemma add_positive L K x y :
  positive_between L K x -> positive_between (-1073) K y ->
  -1074 < L -> K + 1 < 971 ->
  positive_between L (K + 2) (Float.add x y).
Proof.
  intros Hx Hy HL HK.
  destruct x as [| | |[] mx ex], y as [| | |[] my ey]; try done.
  destruct Hx as (Hcx & Hex), Hy as (Hcy & Hey).
  unfold Float.add. cbn [SFadd cond_Zopp].
  set (ez := Z.min ex ey).
  destruct (aligned_lower mx ex ez Hcx) as [Halo Hahi]; [lia|lia|].
  destruct (aligned_lower my ey ez Hcy) as [Hblo Hbhi]; [lia|lia|].
  set (a := fst (shl_align mx ex ez)) in *.
  set (b := fst (shl_align my ey ez)) in *.
  change (Z.pos a + Z.pos b) with (Z.pos (a + b)).
  cbn [binary_normalize].
  assert (Hlo : 2 ^ (52 + ex - ez) <= Z.pos (a + b)) by lia.
  assert (Hhi : Z.pos (a + b) < 2 ^ (54 + K - ez)).
  { replace (54 + K - ez) with (1 + (53 + K - ez)) by lia.
    rewrite pow2_split, Z.pow_1_r by lia.
    assert (2 ^ (53 + ex - ez) <= 2 ^ (53 + K - ez))
      by (apply Z.pow_le_mono_r; lia).
    assert (2 ^ (53 + ey - ez) <= 2 ^ (53 + K - ez))
      by (apply Z.pow_le_mono_r; lia).
    lia. }
  apply digits2_ge in Hlo. apply digits2_le in Hhi.
  destruct (binary_round_normal false (a + b) ez) as (m & e & -> & Hc & He);
    cbv zeta; rewrite ?fexp_eq in *; try lia.
  cbn. split; [done|lia].
Qed.

(** The difference of a float above zero and a smaller one, two binades
    below or more. *)
Lemma sub_positive L K x y :
  positive_between L K x ->
  (exists my ey, y = S754_finite false my ey /\ Z.pos my < 2 ^ 53 /\
                 forall mx ex, x = S754_finite false mx ex -> ey <= ex - 2) ->
  -1073 < L -> K < 971 ->
  positive_between (L - 1) (K + 1) (Float.sub x y).
Proof.
  intros Hx (my & ey & -> & Hmy & Hey) HL HK.
  destruct x as [| | |[] mx ex]; try done.
  destruct Hx as (Hcx & Hex). specialize (Hey mx ex eq_refl).
  unfold Float.sub. cbn [SFsub cond_Zopp].
  rewrite (Z.min_r ex ey) by lia.
  destruct (aligned_lower mx ex ey Hcx) as [Halo Hahi]; [lia|lia|].
  destruct (shl_align_spec my ey ey) as (b & Eb & Hb).
  rewrite Eb. cbn [fst]. rewrite Z.min_id, Z.sub_diag, Z.mul_1_r in Hb.
  set (a := fst (shl_align mx ex ey)) in *.
  assert (Hge : 2 ^ 53 * 2 <= 2 ^ (52 + ex - ey)).
  { change (2 ^ 53 * 2) with (2 ^ 54). apply Z.pow_le_mono_r; lia. }
  assert (Hhalf : 2 ^ (51 + ex - ey) * 2 = 2 ^ (52 + ex - ey)).
  { replace (52 + ex - ey) with ((51 + ex - ey) + 1) by lia.
    by rewrite pow2_split by lia. }
  destruct (Z.pos a - Z.pos b) as [|p|p] eqn:Ez; [lia| |lia].
  cbn [binary_normalize].
  assert (Hlo : 2 ^ (51 + ex - ey) <= Z.pos p) by lia.
  assert (Hhi : Z.pos p < 2 ^ (53 + ex - ey)) by lia.
  apply digits2_ge in Hlo. apply digits2_le in Hhi.
  destruct (binary_round_normal false p ey) as (m & e & -> & Hc & He);
    cbv zeta; rewrite ?fexp_eq in *; try lia.
  cbn. split; [done|lia].
Qed.

Lemma float_gt_int_exponent m e :
  (float_gt_int (S754_finite false m e) 200 = true -> -45 <= e) /\
  (float_gt_int (S754_finite false m e) 400 = true -> -44 <= e).
Proof.
  unfold float_gt_int.
  change (Float.of_Z 200) with (S754_finite false 7036874417766400 (-45)).
  change (Float.of_Z 400) with (S754_finite false 7036874417766400 (-44)).
  cbn [SFcompare]. split.
  - destruct (Z.compare_spec e (-45)); [lia|discriminate|lia].
  - destruct (Z.compare_spec e (-44)); [lia|discriminate|lia].
Qed.

Lemma float_gt_int_0_positive L K x :
  positive_between L K x -> float_gt_int x 0 = true.
Proof. by destruct x as [| | |[] m e]. Qed.

Lemma add_zero_r L K x :
  positive_between L K x -> Float.add x Float.lit_0_0 = x.
Proof. by destruct x as [| | |[] m e]. Qed.

(** ** The pipeline above zero *)

Section AboveZero.

Variable selected : list feature.
Variable member_count : Z.
Variable g : spec_float.
Hypothesis Hg : positive_between (-47) 948 g.

Lemma surcharge_positive :
  if Spec.has_premium selected
  then positive_between (-50) 947 (Spec.surcharge selected g)
  else Spec.surcharge selected g = Float.lit_0_0.
Proof.
  unfold Spec.surcharge, Float.lit_0_15.
  destruct (Spec.has_premium selected); [|done].
  destruct (mul_positive (-47) 948 g 5404319552844595 (-55) Hg)
    as (m & e & -> & Hc & He); try done.
  destruct g as [| | |[] mx ex]; try done. destruct Hg as (_ & ?).
  specialize (He mx ex eq_refl). cbn. split; [done|lia].
Qed.

Lemma after_surcharge_positive :
  positive_between (-47) 950 (Spec.after_surcharge selected g).
Proof.
  unfold Spec.after_surcharge. pose proof surcharge_positive as Hs.
  destruct (Spec.has_premium selected).
  - apply (add_positive (-47) 948); [done| |lia|lia].
    eapply positive_between_mono; [done|lia..].
  - rewrite Hs, (add_zero_r _ _ _ Hg).
    eapply positive_between_mono; [done|lia..].
Qed.

Lemma group_discount_positive :
  if 2 <=? member_count
  then exists m e,
         Spec.group_discount selected member_count g = S754_finite false m e /\
         Float.canonical m e /\ -51 <= e <= 948 /\
         forall mx ex, Spec.after_surcharge selected g = S754_finite false mx ex ->
                       e <= ex - 2
  else Spec.group_discount selected member_count g = Float.lit_0_0.
Proof.
  unfold Spec.group_discount, Float.lit_0_10.
  destruct (2 <=? member_count); [|done].
  pose proof after_surcharge_positive as Ht.
  destruct (mul_positive (-47) 950 _ 7205759403792794 (-56) Ht)
    as (m & e & -> & Hc & He); try done.
  exists m, e. split; [done|]. split; [done|].
  destruct (Spec.after_surcharge selected g) as [| | |[] mx ex]; try done.
  destruct Ht as (_ & ?). specialize (He mx ex eq_refl).
  split; [lia|]. intros ? ? [= <- <-]. lia.
Qed.

Lemma after_group_positive :
  positive_between (-48) 951 (Spec.after_group selected member_count g).
Proof.
  unfold Spec.after_group. pose proof group_discount_positive as Hd.
  pose proof after_surcharge_positive as Ht.
  destruct (2 <=? member_count).
  - destruct Hd as (m & e & -> & Hc & He & Hrel).
    apply (sub_positive (-47) 950); [done| |lia|lia].
    exists m, e. split; [done|]. split; [|done].
    by apply (normal_mantissa m e Hc ltac:(lia)).
  - rewrite Hd, sub_zero_r. eapply positive_between_mono; [done|lia..].
Qed.

Lemma final_total_positive :
  positive_between (-48) 952
    (Float.sub (Spec.after_group selected member_count g)
       (Spec.special_discount selected member_count g)).
Proof.
  pose proof after_group_positive as Ha. unfold Spec.special_discount.
  rewrite !exceeds_float_gt_int.
  destruct (Spec.after_group selected member_count g) as [| | |[] m e] eqn:E;
    try done.
  destruct (float_gt_int_exponent m e) as [H200 H400].
  destruct Ha as (Hc & He).
  destruct (float_gt_int (S754_finite false m e) 400) eqn:E4.
  - eapply positive_between_mono;
      [apply (sub_positive (-44) 951 (S754_finite false m e))| |];
      [split; [done|lia]| |lia|lia|lia|lia].
    do 2 eexists. split; [reflexivity|]. split; [done|].
    intros ? ? [= <- <-]. lia.
  - destruct (float_gt_int (S754_finite false m e) 200) eqn:E2.
    + eapply positive_between_mono;
        [apply (sub_positive (-45) 951 (S754_finite false m e))| |];
        [split; [done|lia]| |lia|lia|lia|lia].
      do 2 eexists. split; [reflexivity|]. split; [done|].
      intros ? ? [= <- <-]. lia.
    + rewrite sub_zero_r. split; [done|lia].
Qed.

End AboveZero.

Lemma py_int_positive x :
  positive_between (-48) 952 x ->
  py_max0 x = PyFloat x /\ exists c, py_int (PyFloat x) = Ok c /\ 16 <= c.
Proof.
  intros Hx. unfold py_max0. rewrite (float_gt_int_0_positive _ _ _ Hx).
  split; [done|]. destruct x as [| | |[] m e]; try done.
  destruct Hx as (Hc & He).
  destruct (normal_mantissa m e Hc ltac:(lia)) as [Hlo _].
  eexists. split; [reflexivity|]. cbn [cond_Zopp].
  destruct (Z.le_gt_cases 0 e).
  - rewrite Z.shiftl_mul_pow2 by done.
    assert (0 < 2 ^ e) by (apply Z.pow_pos_nonneg; lia). nia.
  - rewrite Z.shiftl_div_pow2 by lia.
    assert (0 < 2 ^ (- e)) by (apply Z.pow_pos_nonneg; lia).
    apply Z.div_le_lower_bound; [done|].
    assert (2 ^ (- e) <= 2 ^ 48) by (apply Z.pow_le_mono_r; lia).
    change (2 ^ 52) with (2 ^ 48 * 16) in Hlo. lia.
Qed.

Lemma gross_converts_positive base keys num_members :
  50 <= base -> 1 <= num_members ->
  Spec.gross base (map feature_at keys) num_members < 2 ^ 1000 ->
  exists g,
    float_of_int (Spec.gross base (map feature_at keys) num_members) = Ok g /\
    positive_between (-47) 948 g.
Proof.
  intros Hbase Hm Hlt.
  destruct (gross_sign base keys num_members Hbase) as [Hpos _].
  specialize (Hpos Hm).
  assert (Hg : positive_between (5 - 52) 948
                 (Float.of_Z (Spec.gross base (map feature_at keys) num_members))).
  { apply of_Z_positive; [|lia]. change (2 ^ 5) with 32. lia. }
  change (5 - 52) with (-47) in Hg.
  unfold float_of_int.
  destruct (Float.of_Z _) as [| | |[] m e]; try done. eauto.
Qed.

(** X3: for a valid selection with at least one member and a gross
    total below [2 ^ 1000], the total that reaches the clamp is a float
    above zero: [max(0, ...)] returns that float, never its [0], and the
    cost returned is at least 16. *)
Theorem clamp_never_applies plan_name base keys num_members :
  MEMBERSHIP_PLANS !! plan_name = Some base ->
  Forall valid_key keys ->
  1 <= num_members ->
  Spec.gross base (map feature_at keys) num_members < 2 ^ 1000 ->
  exists fr c d,
    calculate_total_cost_locals plan_name keys num_members = Ok fr /\
    Locals.final_total fr =
      PyFloat (Float.sub (Locals.total_after_group fr)
                 (Locals.special_discount fr)) /\
    calculate_total_cost plan_name keys num_members = Ok (c, d) /\
    16 <= c.
Proof.
  intros Hplan Hkeys Hm Hgross.
  destruct (plan_base_positive _ _ Hplan) as [Hbase _].
  destruct (gross_converts_positive base keys num_members Hbase Hm Hgross)
    as (g & Eg & Hg).
  pose proof (calculate_total_cost_locals_valid _ _ _ num_members Hplan Hkeys)
    as Hloc. cbv zeta in Hloc. rewrite Eg in Hloc. cbn [bind] in Hloc.
  destruct (py_int_positive _
              (final_total_positive (map feature_at keys) num_members g Hg))
    as (Hmax & c & Hc & Hc16).
  eexists _, c, _. split; [exact Hloc|].
  cbn [Locals.final_total Locals.total_after_group Locals.special_discount].
  split; [exact Hmax|]. split; [|done].
  rewrite (calculate_total_cost_of_locals _ _ _ _ Hloc).
  cbn [Locals.final_total]. rewrite Hmax, Hc. reflexivity.
Qed.

Lemma clamp_never_applies_witness :
  exists fr c d,
    calculate_total_cost_locals "Basic" ["2"] 1 = Ok fr /\
    Locals.final_total fr =
      PyFloat (Float.sub (Locals.total_after_group fr)
                 (Locals.special_discount fr)) /\
    calculate_total_cost "Basic" ["2"] 1 = Ok (c, d) /\
    16 <= c.
Proof.
  apply (clamp_never_applies "Basic" 50 ["2"] 1).
  - reflexivity.
  - repeat constructor; eexists; reflexivity.
  - lia.
  - reflexivity.
Defined.

(** X4: in the breakdown of such a selection an amount is above zero
    exactly when its adjustment applies: the surcharge when a premium
    feature is selected, the group discount when there are two members or
    more, the special discount when the total after group discount is
    above 200.  These are the three tests under which [confirm_purchase]
    prints the line of an adjustment. *)
Theorem breakdown_amounts_positive plan_name base keys num_members :
  MEMBERSHIP_PLANS !! plan_name = Some base ->
  Forall valid_key keys ->
  1 <= num_members ->
  Spec.gross base (map feature_at keys) num_members < 2 ^ 1000 ->
  exists fr c d,
    calculate_total_cost_locals plan_name keys num_members = Ok fr /\
    calculate_total_cost plan_name keys num_members = Ok (c, d) /\
    float_gt_int (surcharge d) 0 =
      existsb (fun k => is_premium (feature_at k)) keys /\
    float_gt_int (group_discount d) 0 = (2 <=? num_members) /\
    float_gt_int (special_discount d) 0 =
      float_gt_int (Locals.total_after_group fr) 200.
Proof.
  intros Hplan Hkeys Hm Hgross.
  destruct (plan_base_positive _ _ Hplan) as [Hbase _].
  destruct (gross_converts_positive base keys num_members Hbase Hm Hgross)
    as (g & Eg & Hg).
  pose proof (calculate_total_cost_locals_valid _ _ _ num_members Hplan Hkeys)
    as Hloc. cbv zeta in Hloc. rewrite Eg in Hloc. cbn [bind] in Hloc.
  destruct (py_int_positive _
              (final_total_positive (map feature_at keys) num_members g Hg))
    as (Hmax & c & Hc & _).
  eexists _, c, _. split; [exact Hloc|]. split.
  { rewrite (calculate_total_cost_of_locals _ _ _ _ Hloc).
    cbn [Locals.final_total]. rewrite Hmax, Hc. reflexivity. }
  cbn [surcharge group_discount special_discount Locals.surcharge
       Locals.group_discount Locals.special_discount Locals.total_after_group].
  split; [|split].
  - rewrite resolved_premium.
    pose proof (surcharge_positive (map feature_at keys) g Hg) as Hs.
    destruct (Spec.has_premium (map feature_at keys)).
    + by apply (float_gt_int_0_positive (-50) 947).
    + by rewrite Hs.
  - pose proof (group_discount_positive (map feature_at keys) num_members g Hg)
      as Hd.
    destruct (2 <=? num_members); [|by rewrite Hd].
    by destruct Hd as (m & e & -> & _).
  - unfold Spec.special_discount. rewrite !exceeds_float_gt_int.
    pose proof (after_group_positive (map feature_at keys) num_members g Hg)
      as Ha.
    destruct (Spec.after_group _ _ g) as [| | |[] m e] eqn:E; try done.
    destruct (float_gt_int_exponent m e) as [H200 H400].
    destruct (float_gt_int (S754_finite false m e) 400) eqn:E4.
    + apply float_gt_int_400 with (K := 951) (q := (inject_Z (Z.pos m) * 2 ^ e)%Q)
        in E4; [|by destruct Ha as (? & ? & ?); split; [|lia]|done].
      symmetry.
      apply (float_gt_int_200 951 (S754_finite false m e)
               (inject_Z (Z.pos m) * 2 ^ e)%Q);
        [by destruct Ha as (? & ? & ?); split; [|lia]|done|].
      eapply Qlt_trans; [|exact E4]. reflexivity.
    + by destruct (float_gt_int (S754_finite false m e) 200).
Qed.

Lemma breakdown_amounts_positive_witness :
  exists fr c d,
    calculate_total_cost_locals "Family" ["3"] 2 = Ok fr /\
    calculate_total_cost "Family" ["3"] 2 = Ok (c, d) /\
    float_gt_int (surcharge d) 0 =
      existsb (fun k => is_premium (feature_at k)) ["3"] /\
    float_gt_int (group_discount d) 0 = (2 <=? 2) /\
    float_gt_int (special_discount d) 0 =
      float_gt_int (Locals.total_after_group fr) 200.
Proof.
  apply (breakdown_amounts_positive "Family" 150 ["3"] 2).
  - reflexivity.
  - repeat constructor; eexists; reflexivity.
  - lia.
  - reflexivity.
Defined.
(** * Properties of the shell *)

(** ** Text *)

Lemma lstrip_with_none p s :
  all_chars (fun c => negb (p c)) s = true -> Str.lstrip_with p s = s.
Proof.
  destruct s as [|c s]; [done|]. cbn. intros [Hc _]%andb_prop.
  by destruct (p c).
Qed.

Lemma rstrip_with_none p s :
  all_chars (fun c => negb (p c)) s = true -> Str.rstrip_with p s = s.
Proof.
  induction s as [|c s IH]; [done|]. cbn [all_chars Str.rstrip_with].
  intros [Hc Hs]%andb_prop. rewrite (IH Hs).
  destruct s; [|done]. by destruct (p c).
Qed.

Lemma all_chars_impl (p q : ascii -> bool) s :
  (forall c, p c = true -> q c = true) ->
  all_chars p s = true -> all_chars q s = true.
Proof.
  intros Hpq. induction s as [|c s IH]; [done|]. cbn.
  intros [Hc Hs]%andb_prop. by rewrite (Hpq c Hc), IH.
Qed.

Lemma all_chars_app p s t :
  all_chars p (s +:+ t) = all_chars p s && all_chars p t.
Proof.
  induction s as [|c s IH]; [done|]. simpl. by rewrite IH, andb_assoc.
Qed.

(** ** Decimal literals *)

Lemma digit_value_pretty d :
  (d < 10)%N -> digit_value (pretty_N_char d) = Some (Z.of_N d).
Proof.
  intros H.
  assert (Hd : (d = 0 \/ d = 1 \/ d = 2 \/ d = 3 \/ d = 4 \/ d = 5 \/
                d = 6 \/ d = 7 \/ d = 8 \/ d = 9)%N) by lia.
  destruct Hd as [-> | [-> | [-> | [-> | [-> | [-> | [-> | [-> | [-> | ->]]]]]]]]];
    reflexivity.
Qed.

Lemma pretty_N_go_digits x s :
  all_chars is_digit s = true -> all_chars is_digit (pretty_N_go x s) = true.
Proof.
  revert s. induction (N.lt_wf_0 x) as [x _ IH]; intros s Hs.
  destruct (N.eq_dec x 0%N) as [->|Hx]; [by rewrite pretty_N_go_0|].
  rewrite pretty_N_go_step by lia. apply IH.
  - apply N.div_lt; lia.
  - cbn [all_chars]. rewrite Hs, andb_true_r. unfold is_digit.
    by rewrite digit_value_pretty by (apply N.mod_lt; lia).
Qed.

(** Reading back the digits that [pretty_N_go] writes. *)
Lemma int_digits_pretty x :
  (0 < x)%N ->
  exists k : N,
    10 ^ (Z.of_N k - 1) <= Z.of_N x /\ (0 < k)%N /\
    forall s acc cnt b,
      int_digits (pretty_N_go x s) acc cnt b =
      int_digits s (acc * 10 ^ Z.of_N k + Z.of_N x) (cnt + k) true.
Proof.
  induction (N.lt_wf_0 x) as [x _ IH]. intros Hx.
  assert (Hstep : forall s acc cnt b,
            int_digits (String (pretty_N_char (x mod 10)) s) acc cnt b =
            int_digits s (10 * acc + Z.of_N (x mod 10)) (cnt + 1) true).
  { intros. cbn [int_digits].
    by rewrite digit_value_pretty by (apply N.mod_lt; lia). }
  assert (Hdm : Z.of_N x = 10 * Z.of_N (x / 10) + Z.of_N (x mod 10)).
  { rewrite (N.div_mod x 10%N) at 1 by lia. lia. }
  pose proof (N2Z.is_nonneg (x mod 10)) as Hr.
  pose proof (N2Z.is_nonneg (x / 10)) as Hq.
  destruct (N.eq_dec (x / 10)%N 0%N) as [E|E].
  - exists 1%N. split; [cbn; lia|]. split; [lia|]. intros.
    rewrite pretty_N_go_step, E, pretty_N_go_0, Hstep by done.
    f_equal. change (10 ^ Z.of_N 1) with 10. rewrite Hdm, E. lia.
  - destruct (IH (x / 10)%N) as (k & Hlo & Hk & Hread);
      [apply N.div_lt; lia|by apply N.neq_0_lt_0|].
    exists (k + 1)%N. split; [|split; [lia|]].
    + replace (Z.of_N (k + 1) - 1) with (Z.succ (Z.of_N k - 1)) by lia.
      rewrite Z.pow_succ_r by lia.
      generalize dependent (Z.of_N (x / 10)).
      generalize dependent (Z.of_N (x mod 10)).
      generalize (10 ^ (Z.of_N k - 1)). intros; lia.
    + intros. rewrite pretty_N_go_step, Hread, Hstep by done.
      f_equal; [|lia].
      replace (Z.of_N (k + 1)) with (Z.succ (Z.of_N k)) by lia.
      rewrite Z.pow_succ_r by lia. rewrite Hdm. ring.
Qed.

Lemma int_of_str_digits max_str_digits (p : positive) :
  max_str_digits = 0%N \/ Z.pos p < 10 ^ 640 ->
  int_digits (pretty (N.pos p)) 0 0 false <> None /\
  forall v count,
    int_digits (pretty (N.pos p)) 0 0 false = Some (v, count) ->
    v = Z.pos p /\
    ((640 <? count) && (0 <? max_str_digits) && (max_str_digits <? count))%N
      = false.
Proof.
  intros Hlim. unfold pretty, pretty_N.
  destruct (decide (N.pos p = 0%N)) as [|_]; [done|].
  destruct (int_digits_pretty (N.pos p) ltac:(lia)) as (k & Hlo & Hk & Hread).
  rewrite Hread. cbn [int_digits]. split; [done|].
  intros v count [= <- <-]. split; [cbn; lia|].
  destruct Hlim as [-> | Hlt]; [by rewrite andb_false_r|].
  assert (Z.of_N k - 1 < 640).
  { apply (Z.pow_lt_mono_r_iff 10); [lia|lia|]. cbn in Hlo. lia. }
  replace (640 <? 0 + k)%N with false; [done|].
  symmetry. apply N.ltb_ge. lia.
Qed.

Lemma is_digit_not_space c : is_digit c = true -> negb (int_space c) = true.
Proof. destruct c as [[] [] [] [] [] [] [] []]; by vm_compute. Qed.

Lemma sign_of_digit {A} c r (k : bool * string -> A) :
  is_digit c = true ->
  k match String c r with
    | String "-"%char rest => (true, rest)
    | String "+"%char rest => (false, rest)
    | _ => (false, String c r)
    end = k (false, String c r).
Proof. destruct c as [[] [] [] [] [] [] [] []]; by vm_compute. Qed.

Lemma pretty_pos_digits (p : positive) :
  exists c r, pretty (N.pos p) = String c r /\
              all_chars is_digit (String c r) = true.
Proof.
  pose proof (pretty_N_go_digits (N.pos p) "" eq_refl) as H.
  unfold pretty, pretty_N. destruct (decide (N.pos p = 0%N)); [done|].
  destruct (int_digits_pretty (N.pos p) ltac:(lia)) as (k & _ & _ & Hread).
  destruct (pretty_N_go (N.pos p) "") as [|c r] eqn:E; [|by eauto].
  specialize (Hread "" 0 0%N false). by rewrite E in Hread.
Qed.

(** Reading back a written integer: [int(str(n))] is [n], whatever the
    sign, when the digit limit is off or when [n] has at most 640 digits,
    which no limit rejects. *)
Lemma int_of_str_pretty max_str_digits n :
  max_str_digits = 0%N \/ Z.abs n < 10 ^ 640 ->
  int_of_str max_str_digits (str_of_int n) = Some n.
Proof.
  intros Hlim. unfold str_of_int, pretty, pretty_Z.
  destruct n as [|p|p]; [done| |].
  - change (pretty p) with (pretty (N.pos p)).
    destruct (pretty_pos_digits p) as (c & r & E & Hd).
    destruct (int_of_str_digits max_str_digits p Hlim) as [Hsome Hval].
    assert (Hns : all_chars (fun c => negb (int_space c)) (String c r) = true)
      by (eapply all_chars_impl; [apply is_digit_not_space|done]).
    unfold int_of_str. rewrite E in *.
    rewrite lstrip_with_none, rstrip_with_none by done.
    apply andb_prop in Hd as [Hc _].
    rewrite (sign_of_digit c r
               (fun x => let '(negative, digits) := x in _) Hc).
    destruct (int_digits (String c r) 0 0 false) as [[v count]|]; [|done].
    destruct (Hval v count eq_refl) as [-> ->]. done.
  - change (pretty p) with (pretty (N.pos p)).
    destruct (pretty_pos_digits p) as (c & r & E & Hd).
    destruct (int_of_str_digits max_str_digits p) as [Hsome Hval];
      [by destruct Hlim; [left|right]|].
    assert (Hns : all_chars (fun c => negb (int_space c))
                    ("-" +:+ String c r) = true).
    { change ("-" +:+ String c r) with (String "-" (String c r)).
      change (all_chars (fun c => negb (int_space c)) (String c r) = true).
      by apply (all_chars_impl is_digit _ _ is_digit_not_space). }
    unfold int_of_str. rewrite E in *.
    rewrite lstrip_with_none, rstrip_with_none by done.
    change ("-" +:+ String c r) with (String "-" (String c r)). cbv iota beta.
    destruct (int_digits (String c r) 0 0 false) as [[v count]|]; [|done].
    destruct (Hval v count eq_refl) as [-> ->]. done.
Qed.

(** ** Comma-separated keys *)

Lemma first_unavailable_None keys :
  first_unavailable keys = None <-> Forall valid_key keys.
Proof.
  induction keys as [|k keys IH]; cbn [first_unavailable]; [done|].
  destruct (ADDITIONAL_FEATURES !! k) as [f|] eqn:E.
  - rewrite IH. split; [intros; constructor; [by eexists|done]|].
    by inversion 1.
  - split; [done|]. inversion 1 as [|? ? [f Hf] _]; congruence.
Qed.

Lemma split_comma_free s :
  all_chars not_comma s = true -> Str.split_comma s = [s].
Proof.
  induction s as [|c s IH]; [done|]. cbn [all_chars Str.split_comma].
  intros [Hc Hs]%andb_prop. rewrite (IH Hs).
  unfold not_comma in Hc. by destruct (Ascii.eqb c ",").
Qed.

Lemma split_comma_app s t :
  all_chars not_comma s = true ->
  Str.split_comma (s +:+ "," +:+ t) = s :: Str.split_comma t.
Proof.
  induction s as [|c s IH]; [done|]. simpl.
  intros [Hc Hs]%andb_prop. rewrite (IH Hs).
  unfold not_comma in Hc. by destruct (Ascii.eqb c ",").
Qed.

(** Splitting at the commas undoes joining with commas. *)
Lemma split_comma_join keys :
  keys <> [] ->
  Forall (fun k => all_chars not_comma k = true) keys ->
  Str.split_comma (Str.join "," keys) = keys.
Proof.
  intros Hne Hkeys. induction Hkeys as [|k keys Hk Hkeys IH]; [done|].
  destruct keys as [|k' keys]; [by apply split_comma_free|].
  change (Str.join "," (k :: k' :: keys))
    with (k +:+ "," +:+ Str.join "," (k' :: keys)).
  rewrite split_comma_app, IH; done.
Qed.

Lemma valid_key_plain k :
  valid_key k ->
  all_chars not_comma k = true /\
  all_chars (fun c => negb (Str.isspace c)) k = true /\
  Str.strip k = k /\ k <> "".
Proof.
  intros [-> | [-> | [-> | ->]]]%valid_key_cases; by vm_compute.
Qed.

Lemma join_valid_keys_plain keys :
  Forall valid_key keys ->
  all_chars (fun c => negb (Str.isspace c)) (Str.join "," keys) = true.
Proof.
  induction 1 as [|k keys Hk Hkeys IH]; [done|].
  destruct (valid_key_plain k Hk) as (_ & Hns & _ & _).
  destruct keys as [|k' keys]; [done|].
  change (Str.join "," (k :: k' :: keys))
    with (k +:+ "," +:+ Str.join "," (k' :: keys)).
  by rewrite !all_chars_app, Hns, IH.
Qed.

Lemma strip_plain s :
  all_chars (fun c => negb (Str.isspace c)) s = true -> Str.strip s = s.
Proof.
  intros H. unfold Str.strip. by rewrite lstrip_with_none, rstrip_with_none.
Qed.

(** ** Answers to the confirmation *)

Lemma lower_char_y c : Str.lower_char c = "y"%char -> c = "y"%char \/ c = "Y"%char.
Proof.
  destruct c as [[] [] [] [] [] [] [] []]; vm_compute; intros H;
    try discriminate H; auto.
Qed.

Lemma lower_char_e c : Str.lower_char c = "e"%char -> c = "e"%char \/ c = "E"%char.
Proof.
  destruct c as [[] [] [] [] [] [] [] []]; vm_compute; intros H;
    try discriminate H; auto.
Qed.

Lemma lower_char_s c : Str.lower_char c = "s"%char -> c = "s"%char \/ c = "S"%char.
Proof.
  destruct c as [[] [] [] [] [] [] [] []]; vm_compute; intros H;
    try discriminate H; auto.
Qed.

Lemma lower_yes line :
  Str.lower line = "yes" \/ Str.lower line = "y" <-> In line yes_answers.
Proof.
  split.
  - intros [H|H].
    + destruct line as [|c1 [|c2 [|c3 [|c4 r]]]]; try discriminate H.
      cbn [Str.lower] in H. injection H as H1 H2 H3.
      apply lower_char_y in H1 as [-> | ->];
        apply lower_char_e in H2 as [-> | ->];
        apply lower_char_s in H3 as [-> | ->]; cbn; tauto.
    + destruct line as [|c1 [|c2 r]]; try discriminate H.
      cbn [Str.lower] in H. injection H as H1.
      apply lower_char_y in H1 as [-> | ->]; cbn; tauto.
  - cbn. intros H.
    repeat (destruct H as [<-|H]; [by (left + right)|]). done.
Qed.

(** ** Stepping through the terminal *)

Ltac io_step :=
  cbn [io_bind io_ret io_lift print input for_each stdin stdout fst snd
       MEMBERSHIP_PLANS_items ADDITIONAL_FEATURES_items].

Lemma display_menu_writes w :
  exists out, display_menu w = (Returned tt, World (stdin w) (stdout w ++ out)).
Proof.
  unfold display_menu. io_step. rewrite <- !app_assoc. by eexists.
Qed.

Lemma display_features_writes w :
  exists out,
    display_features w = (Returned tt, World (stdin w) (stdout w ++ out)).
Proof.
  unfold display_features. io_step. rewrite <- !app_assoc. by eexists.
Qed.

(** Each prompt on a terminal with a line to read, and with none. *)

Lemma get_user_input_plan_run line rest out :
  exists written,
    get_user_input_plan (World (line :: rest) out) =
    (Returned match MEMBERSHIP_PLANS !! Str.strip line with
              | Some _ => Some (Str.strip line)
              | None => None
              end,
     World rest (out ++ written)).
Proof.
  unfold get_user_input_plan, io_bind.
  destruct (display_menu_writes (World (line :: rest) out)) as [o ->].
  io_step. destruct (MEMBERSHIP_PLANS !! Str.strip line); io_step;
    rewrite <- ?app_assoc; by eexists.
Qed.

Lemma get_user_input_plan_eof out :
  exists written,
    get_user_input_plan (World [] out) =
    (RaisedEOFError, World [] (out ++ written)).
Proof.
  unfold get_user_input_plan, io_bind.
  destruct (display_menu_writes (World [] out)) as [o ->].
  io_step. rewrite <- ?app_assoc; by eexists.
Qed.

Lemma get_user_input_members_run max_str_digits line rest out :
  exists written,
    get_user_input_members max_str_digits (World (line :: rest) out) =
    (Returned match int_of_str max_str_digits line with
              | Some n => if n <? 1 then None else Some n
              | None => None
              end,
     World rest (out ++ written)) /\
    (In group_note written <->
     exists n, int_of_str max_str_digits line = Some n /\ 2 <= n).
Proof.
  unfold get_user_input_members, io_bind. io_step.
  destruct (int_of_str max_str_digits line) as [n|]; io_step.
  - destruct (Z.ltb_spec n 1); io_step.
    + rewrite <- ?app_assoc. eexists. split; [reflexivity|].
      split; [intros [H'|[H'|[]]]; discriminate H'|].
      intros (n' & [= <-] & ?). lia.
    + destruct (Z.leb_spec 2 n); io_step; rewrite <- ?app_assoc;
        eexists; (split; [reflexivity|]).
      * split; [by eauto|]. intros _. right. by left.
      * split; [intros [H'|[]]; discriminate H'|].
        intros (n' & [= <-] & ?). lia.
  - rewrite <- ?app_assoc. eexists. split; [reflexivity|].
    split; [intros [H'|[H'|[]]]; discriminate H'|].
    by intros (n' & [=] & ?).
Qed.

Lemma get_user_input_members_eof max_str_digits out :
  exists written,
    get_user_input_members max_str_digits (World [] out) =
    (RaisedEOFError, World [] (out ++ written)).
Proof. unfold get_user_input_members, io_bind. io_step. by eexists. Qed.

Lemma get_user_input_features_run line rest out :
  exists written,
    get_user_input_features (World (line :: rest) out) =
    (Returned match first_unavailable (selection line) with
              | Some _ => None
              | None => Some (selection line)
              end,
     World rest (out ++ written)).
Proof.
  unfold get_user_input_features, io_bind.
  destruct (display_features_writes (World (line :: rest) out)) as [o ->].
  io_step. fold (selection line).
  destruct (first_unavailable (selection line)); io_step;
    rewrite <- ?app_assoc; by eexists.
Qed.

Lemma get_user_input_features_eof out :
  exists written,
    get_user_input_features (World [] out) =
    (RaisedEOFError, World [] (out ++ written)).
Proof.
  unfold get_user_input_features, io_bind.
  destruct (display_features_writes (World [] out)) as [o ->].
  io_step. rewrite <- ?app_assoc; by eexists.
Qed.

Lemma confirm_purchase_run plan num_members cost d w :
  exists written,
    confirm_purchase plan num_members cost d w =
    match format_int_2f (base_total d) with
    | Raise e => (Raised e, World (stdin w) (stdout w ++ written))
    | Ok _ =>
        match stdin w with
        | [] => (RaisedEOFError, World [] (stdout w ++ written))
        | line :: rest =>
            (Returned (bool_decide (In line yes_answers)),
             World rest (stdout w ++ written))
        end
    end.
Proof.
  unfold confirm_purchase, io_bind. destruct w as [[|line rest] out]; io_step.
  - destruct (format_int_2f (base_total d)) as [gross_str|e]; io_step;
      [|rewrite <- ?app_assoc; by eexists].
    destruct (float_gt_int (surcharge d) 0),
             (float_gt_int (group_discount d) 0),
             (float_gt_int (special_discount d) 0); io_step;
      rewrite <- ?app_assoc; by eexists.
  - destruct (format_int_2f (base_total d)) as [gross_str|e]; io_step;
      [|rewrite <- ?app_assoc; by eexists].
    assert (E : bool_decide (Str.lower line = "yes")
                || bool_decide (Str.lower line = "y")
                = bool_decide (In line yes_answers)).
    { destruct (bool_decide (Str.lower line = "yes")
                || bool_decide (Str.lower line = "y")) eqn:E; symmetry.
      - apply bool_decide_eq_true, lower_yes.
        apply orb_prop in E as [E|E]; apply bool_decide_eq_true in E; tauto.
      - apply bool_decide_eq_false. intros H%lower_yes.
        apply orb_false_elim in E as [E1 E2].
        apply bool_decide_eq_false in E1, E2. tauto. }
    destruct (float_gt_int (surcharge d) 0),
             (float_gt_int (group_discount d) 0),
             (float_gt_int (special_discount d) 0); io_step;
      rewrite E;
      destruct (bool_decide (In line yes_answers)); io_step;
      rewrite <- ?app_assoc; by eexists.
Qed.

Ltac run_prompts :=
  repeat match goal with
  | |- context [get_user_input_plan (World (?l :: ?r) ?o)] =>
      let wr := fresh "written" in
      destruct (get_user_input_plan_run l r o) as [wr ->]
  | |- context [get_user_input_plan (World [] ?o)] =>
      let wr := fresh "written" in
      destruct (get_user_input_plan_eof o) as [wr ->]
  | |- context [get_user_input_members ?m (World (?l :: ?r) ?o)] =>
      let wr := fresh "written" in
      destruct (get_user_input_members_run m l r o) as (wr & -> & _)
  | |- context [get_user_input_members ?m (World [] ?o)] =>
      let wr := fresh "written" in
      destruct (get_user_input_members_eof m o) as [wr ->]
  | |- context [get_user_input_features (World (?l :: ?r) ?o)] =>
      let wr := fresh "written" in
      destruct (get_user_input_features_run l r o) as [wr ->]
  | |- context [get_user_input_features (World [] ?o)] =>
      let wr := fresh "written" in
      destruct (get_user_input_features_eof o) as [wr ->]
  end.

(** ** The plan prompt *)


(** ** The member-count prompt *)


(** X7: a positive count typed in decimal is accepted as that count,
    when the digit limit is off or the count has at most 640 digits, which
    no limit rejects. *)
Theorem get_user_input_members_typed max_str_digits n rest out :
  1 <= n ->
  max_str_digits = 0%N \/ n < 10 ^ 640 ->
  let w := World (str_of_int n :: rest) out in
  fst (get_user_input_members max_str_digits w) = Returned (Some n) /\
  stdin (snd (get_user_input_members max_str_digits w)) = rest.
Proof.
  intros Hn Hlim. cbv zeta. run_prompts. cbn [fst snd stdin].
  rewrite int_of_str_pretty by (destruct Hlim; [by left|right; lia]).
  by destruct (Z.ltb_spec n 1); [lia|].
Qed.

Lemma get_user_input_members_typed_witness :
  fst (get_user_input_members 4300 (World [str_of_int 3; "x"] [])) =
    Returned (Some 3) /\
  stdin (snd (get_user_input_members 4300 (World [str_of_int 3; "x"] []))) =
    ["x"].
Proof.
  apply (get_user_input_members_typed 4300 3 ["x"] []); [lia|].
  right. reflexivity.
Defined.

(** ** The feature prompt *)


Lemma selection_join keys :
  keys <> [] -> Forall valid_key keys -> selection (Str.join "," keys) = keys.
Proof.
  intros Hne Hkeys. unfold selection.
  rewrite (strip_plain (Str.join "," keys))
    by (by apply join_valid_keys_plain).
  assert (Hjoin : Str.join "," keys <> "").
  { destruct Hkeys as [|k keys Hk _]; [done|].
    destruct (valid_key_plain k Hk) as (_ & _ & _ & Hk').
    destruct k; [done|]. by destruct keys. }
  destruct (Str.join "," keys) eqn:E; [done|]. rewrite <- E.
  rewrite split_comma_join; [|done|].
  2: { eapply Forall_impl; [done|]. intros k Hk. by apply valid_key_plain. }
  clear -Hkeys. induction Hkeys as [|k keys Hk _ IH]; [done|].
  cbn [map]. rewrite IH. f_equal. by apply valid_key_plain.
Qed.

(** X9: typing keys of the catalog separated by commas selects exactly
    those keys, in that order, repetitions included. *)
Theorem get_user_input_features_typed keys rest out :
  keys <> [] ->
  Forall valid_key keys ->
  let w := World (Str.join "," keys :: rest) out in
  fst (get_user_input_features w) = Returned (Some keys) /\
  stdin (snd (get_user_input_features w)) = rest.
Proof.
  intros Hne Hkeys. cbv zeta. run_prompts. cbn [fst snd stdin].
  rewrite selection_join by done.
  apply first_unavailable_None in Hkeys. by rewrite Hkeys.
Qed.

Lemma get_user_input_features_typed_witness :
  fst (get_user_input_features (World ["1,3,1"; "yes"] [])) =
    Returned (Some ["1"; "3"; "1"]) /\
  stdin (snd (get_user_input_features (World ["1,3,1"; "yes"] []))) = ["yes"].
Proof.
  apply (get_user_input_features_typed ["1"; "3"; "1"] ["yes"] []).
  - discriminate.
  - repeat constructor; eexists; reflexivity.
Defined.

(** ** The confirmation *)


(** ** The whole session *)

Lemma valid_plan_nonempty plan_name base :
  MEMBERSHIP_PLANS !! plan_name = Some base ->
  exists c r, plan_name = String c r.
Proof. destruct plan_name as [|c r]; [done|]. eauto. Qed.

Lemma calculate_total_cost_validated plan_name base keys num_members :
  MEMBERSHIP_PLANS !! plan_name = Some base ->
  first_unavailable keys = None ->
  match calculate_total_cost plan_name keys num_members with
  | Ok (c, d) => 0 <= c /\ exists s, format_int_2f (base_total d) = Ok s
  | Raise e => exc_kind e = OverflowError
  end.
Proof.
  intros Hplan Hkeys%first_unavailable_None.
  rewrite (calculate_total_cost_valid _ _ _ num_members Hplan Hkeys).
  cbv zeta. unfold format_int_2f.
  destruct (float_of_int _) as [g|e] eqn:Eg; cbn [bind].
  - destruct (py_int_max0_cases
                (Float.sub (Spec.after_group (map feature_at keys) num_members g)
                   (Spec.special_discount (map feature_at keys) num_members g)))
      as [(c & -> & Hc)| ->]; cbn [bind]; [|done].
    split; [done|]. cbn [base_total Spec.breakdown]. rewrite Eg. by eexists.
  - by apply float_of_int_error in Eg.
Qed.

(** X11: whatever the three prompts return is fit for the calculation: a
    plan of the catalog, a count of at least one, keys of the catalog.
    With them [calculate_total_cost] raises neither of its two
    [ValueError]s, so that the handler of [run_gym_system] has nothing to
    catch: the call returns a cost that is not negative, or the float
    arithmetic overflows. *)
Theorem prompts_validate_inputs max_str_digits w1 w2 w3 plan num_members keys :
  fst (get_user_input_plan w1) = Returned (Some plan) ->
  fst (get_user_input_members max_str_digits w2) = Returned (Some num_members) ->
  fst (get_user_input_features w3) = Returned (Some keys) ->
  valid_plan plan /\ 1 <= num_members /\ Forall valid_key keys /\
  match calculate_total_cost plan keys num_members with
  | Ok (c, _) => 0 <= c
  | Raise e => exc_kind e = OverflowError
  end.
Proof.
  destruct w1 as [[|l1 r1] o1], w2 as [[|l2 r2] o2], w3 as [[|l3 r3] o3];
    run_prompts; cbn [fst]; try discriminate.
  destruct (MEMBERSHIP_PLANS !! Str.strip l1) as [base|] eqn:Hplan;
    [|discriminate].
  destruct (int_of_str max_str_digits l2) as [n|]; [|discriminate].
  destruct (Z.ltb_spec n 1); [discriminate|].
  destruct (first_unavailable (selection l3)) eqn:Hkeys; [discriminate|].
  intros [= <-] [= <-] [= <-].
  split; [by eexists|]. split; [done|].
  split; [by apply first_unavailable_None|].
  pose proof (calculate_total_cost_validated _ _ _ n Hplan Hkeys) as H'.
  destruct (calculate_total_cost _ _ _) as [[c d]|e]; [by destruct H'|done].
Qed.

Lemma prompts_validate_inputs_witness :
  valid_plan "Family" /\ 1 <= 2 /\ Forall valid_key ["4"; "2"] /\
  match calculate_total_cost "Family" ["4"; "2"] 2 with
  | Ok (c, _) => 0 <= c
  | Raise e => exc_kind e = OverflowError
  end.
Proof.
  apply (prompts_validate_inputs 4300
           (World ["  Family "] []) (World ["2"] []) (World ["4, 2"] []));
    reflexivity.
Defined.

Ltac run_session :=
  unfold run_gym_system, io_bind; io_step; run_prompts; io_step.

(** X12: a session with four good answers: [run_gym_system] reads the
    four lines and nothing more, and returns the cost that
    [calculate_total_cost] computes for the plan, the count and the keys
    typed when the last answer is a yes, and -1 when it is not. *)
Theorem run_gym_system_session
  max_str_digits l1 l2 l3 l4 rest out num_members c d :
  valid_plan (Str.strip l1) ->
  int_of_str max_str_digits l2 = Some num_members ->
  1 <= num_members ->
  Forall valid_key (selection l3) ->
  calculate_total_cost (Str.strip l1) (selection l3) num_members = Ok (c, d) ->
  let w := World (l1 :: l2 :: l3 :: l4 :: rest) out in
  fst (run_gym_system max_str_digits w) =
    Returned (if bool_decide (In l4 yes_answers) then c else -1) /\
  stdin (snd (run_gym_system max_str_digits w)) = rest.
Proof.
  intros [base Hplan] Hint Hn Hkeys%first_unavailable_None Hcalc. cbv zeta.
  run_session. rewrite Hplan.
  destruct (valid_plan_nonempty _ _ Hplan) as (ch & r & Ename).
  rewrite Ename in *. io_step. run_prompts. rewrite Hint.
  destruct (Z.ltb_spec num_members 1); [lia|].
  destruct num_members as [|m|m]; [lia| |lia].
  io_step. run_prompts. rewrite Hkeys. io_step. rewrite Hcalc.
  pose proof (calculate_total_cost_validated _ _ _ (Z.pos m) Hplan Hkeys) as H'.
  rewrite Hcalc in H'. destruct H' as [_ [s Hs]].
  match goal with
  | |- context [confirm_purchase ?p ?n ?c ?d ?w] =>
      destruct (confirm_purchase_run p n c d w) as [written' ->]
  end.
  rewrite Hs. cbn [stdin]. by destruct (bool_decide (In l4 yes_answers)).
Qed.

Lemma run_gym_system_session_witness :
  exists c,
    fst (run_gym_system 4300
           (World [" Premium"; "2"; "4"; "Yes"; "left"] [])) = Returned c /\
    c = 311 /\
    stdin (snd (run_gym_system 4300
                  (World [" Premium"; "2"; "4"; "Yes"; "left"] []))) = ["left"].
Proof.
  destruct (run_gym_system_session 4300 " Premium" "2" "4" "Yes" ["left"] []
              2 311
              (Details 320 (S754_finite false 6755399441055744 (-47))
                 (S754_finite false 5179139571476071 (-47))
                 Float.lit_20_0 ["Nutritional Plan"]))
    as [H1 H2].
  - exists 100. reflexivity.
  - reflexivity.
  - lia.
  - repeat constructor; eexists; reflexivity.
  - reflexivity.
  - exists 311. split; [exact H1|]. split; [reflexivity|exact H2].
Defined.



(** X14: a count so large that the gross total does not convert to a
    float is not caught: [run_gym_system] handles [ValueError] only, and
    the [OverflowError] of the calculation leaves it instead of a -1. *)
Theorem run_gym_system_overflow_escapes
  max_str_digits l1 l2 l3 rest out base num_members e :
  MEMBERSHIP_PLANS !! Str.strip l1 = Some base ->
  int_of_str max_str_digits l2 = Some num_members ->
  1 <= num_members ->
  Forall valid_key (selection l3) ->
  float_of_int
    (Spec.gross base (map feature_at (selection l3)) num_members) = Raise e ->
  let w := World (l1 :: l2 :: l3 :: rest) out in
  fst (run_gym_system max_str_digits w) = Raised e /\
  exc_kind e = OverflowError /\
  stdin (snd (run_gym_system max_str_digits w)) = rest.
Proof.
  intros Hplan Hint Hn Hkeys Hgross. cbv zeta.
  pose proof (calculate_total_cost_valid _ _ _ num_members Hplan Hkeys) as Hcalc.
  cbv zeta in Hcalc. rewrite Hgross in Hcalc. cbn [bind] in Hcalc.
  pose proof (float_of_int_error _ _ Hgross) as Hkind.
  apply first_unavailable_None in Hkeys.
  run_session. rewrite Hplan.
  destruct (valid_plan_nonempty _ _ Hplan) as (ch & r & Ename).
  rewrite Ename in *. io_step. run_prompts. rewrite Hint.
  destruct (Z.ltb_spec num_members 1); [lia|].
  destruct num_members as [|m|m]; [lia| |lia].
  io_step. run_prompts. rewrite Hkeys. io_step. rewrite Hcalc.
  destruct e as [[] msg]; [discriminate Hkind|]. by io_step.
Qed.

Lemma run_gym_system_overflow_escapes_witness :
  fst (run_gym_system 4300
         (World ["Basic"; str_of_int (10 ^ 400); ""; "yes"] [])) =
    Raised (PyExc OverflowError "int too large to convert to float").
Proof.
  apply (run_gym_system_overflow_escapes 4300 "Basic" (str_of_int (10 ^ 400))
           "" ["yes"] [] 50 (10 ^ 400)); by vm_compute.
Defined.

(** X15: however the session goes, [run_gym_system] returns -1 or a cost
    that is not negative, so that -1 always means that nothing was bought;
    it raises no [ValueError]; it raises [EOFError] only when fewer than
    four lines were there to read. *)
Theorem run_gym_system_outcomes max_str_digits w :
  match fst (run_gym_system max_str_digits w) with
  | Returned z => z = -1 \/ 0 <= z
  | Raised e => exc_kind e = OverflowError
  | RaisedEOFError => (length (stdin w) < 4)%nat
  end.
Proof.
  destruct w as [lines out].
  destruct lines as [|l1 lines]; [run_session; cbn; lia|].
  run_session.
  destruct (MEMBERSHIP_PLANS !! Str.strip l1) as [base|] eqn:Hplan;
    [|io_step; by left].
  destruct (valid_plan_nonempty _ _ Hplan) as (ch & r & Ename).
  rewrite Ename in *. io_step.
  destruct lines as [|l2 lines]; [run_prompts; io_step; cbn; lia|].
  run_prompts.
  destruct (int_of_str max_str_digits l2) as [n|]; [|io_step; by left].
  destruct (Z.ltb_spec n 1); [io_step; by left|].
  destruct n as [|m|m]; [lia| |lia]. io_step.
  destruct lines as [|l3 lines]; [run_prompts; io_step; cbn; lia|].
  run_prompts.
  destruct (first_unavailable (selection l3)) eqn:Hkeys; [io_step; by left|].
  io_step.
  pose proof (calculate_total_cost_validated _ _ _ (Z.pos m) Hplan Hkeys) as H'.
  destruct (calculate_total_cost _ _ _) as [[c d]|[[] msg]];
    [|discriminate H'|by io_step].
  destruct H' as [Hc [s Hs]].
  match goal with
  | |- context [confirm_purchase ?p ?n ?c ?d ?w] =>
      destruct (confirm_purchase_run p n c d w) as [written' ->]
  end.
  rewrite Hs. cbn [stdin].
  destruct lines as [|l4 lines]; [cbn; lia|].
  destruct (bool_decide (In l4 yes_answers)); io_step; auto.
Qed.
